(** * py-timer: the [Timer] class and its storage backends ([timer.py])

    A shallow embedding of [timer.py]: the in-memory backend (a
    [defaultdict] of bounded [deque]s), the Redis backend, the scoped timing
    region built with [contextlib.contextmanager], and the statistics
    queries [getsum], [getavg] and [get_time_estimate].

    Python floats are IEEE binary64 numbers, here the primitive [float];
    Python ints are [Z]; a raised exception is the [Raise] outcome of a
    state-passing computation, whose state changes made before the raise
    persist, as they do in Python. *)

From Stdlib Require Import ZArith Lia.
From Stdlib Require Import PrimFloat SpecFloat FloatOps.
From stdpp Require Import gmap strings list.

Local Open Scope Z_scope.

(** ** Exceptions and the computation monad *)

(** The exceptions the modelled code raises or lets through.
    [ResponseError] is the client's exception for a command the Redis server
    refuses. [Exception] stands for any error raised by caller code (the
    body of a [with] block), told apart by its message. *)
Inductive exn : Type :=
| TypeError
| ValueError
| ZeroDivisionError
| OverflowError
| ResponseError
| Exception (msg : string).

Inductive result (A : Type) : Type :=
| Ok (a : A)
| Raise (e : exn).
Arguments Ok {A} a.
Arguments Raise {A} e.

(** A computation over a mutable state [S]: the outcome and the state it
    leaves behind. *)
Definition M (S A : Type) : Type := S -> result A * S.

Definition ret {S A} (a : A) : M S A := fun s => (Ok a, s).
Definition raise {S A} (e : exn) : M S A := fun s => (Raise e, s).
Definition bind {S A B} (m : M S A) (k : A -> M S B) : M S B :=
  fun s =>
    match m s with
    | (Ok a, s') => k a s'
    | (Raise e, s') => (Raise e, s')
    end.
Definition lift_result {S A} (r : result A) : M S A := fun s => (r, s).

Declare Scope py_scope.
Delimit Scope py_scope with py.
Notation "x <- m ;; k" := (bind m (fun x => k))
  (at level 100, m at next level, right associativity) : py_scope.
Notation "m ;;; k" := (bind m (fun _ => k))
  (at level 100, right associativity) : py_scope.
Local Open Scope py_scope.

(** ** Numbers *)

(** Conversion of a Python int to a float, as the float operators do with an
    int operand ([PyLong_AsDouble]): round to nearest even, and
    [OverflowError] when the int is too large for a finite double. *)
Definition float_of_int (z : Z) : result float :=
  let f := SF2Prim (binary_normalize prec emax z 0 false) in
  if is_infinity f then Raise OverflowError else Ok f.

(** [x / n] for a float [x] and an int [n] under [from __future__ import
    division]: the int is converted, a zero divisor raises. *)
Definition truediv (x : float) (n : Z) : result float :=
  match float_of_int n with
  | Raise e => Raise e
  | Ok d => if PrimFloat.eqb d 0%float then Raise ZeroDivisionError
            else Ok (PrimFloat.div x d)
  end.

(** [x * n] for a float [x] and an int [n]. *)
Definition mul_int (x : float) (n : Z) : result float :=
  match float_of_int n with
  | Raise e => Raise e
  | Ok d => Ok (PrimFloat.mul x d)
  end.

(** The builtin [sum] over floats: it starts from the int [0], which the
    first addition converts to [0.0], and adds from left to right (plain
    additions, as the interpreters this module runs on do: it calls
    [time.clock]). *)
Definition py_sum (l : list float) : float :=
  fold_left PrimFloat.add l 0%float.

(** ** Machine integers

    A deque keeps its [maxlen] in a C [ssize_t], 64 bits wide on the
    platforms considered here, and a Redis server reads the integer
    arguments of a command as signed 64-bit numbers: both take the integers
    from [-2^63] to [2^63 - 1] and refuse the others. *)
Definition ssize_max : Z := 9223372036854775807.

Definition fits_int64 (z : Z) : bool :=
  (- ssize_max - 1 <=? z) && (z <=? ssize_max).
Arguments fits_int64 : simpl never.

(** ** [collections.deque] with [maxlen] *)

Record deque : Type := mkDeque {
  maxlen : Z;
  items : list float
}.

(** [deque(maxlen=limit)]: a [maxlen] that does not fit a [ssize_t] raises
    [OverflowError], and a negative one that fits is refused with
    [ValueError]. *)
Definition deque_new (limit : Z) : result deque :=
  if negb (fits_int64 limit) then Raise OverflowError
  else if limit <? 0 then Raise ValueError
  else Ok {| maxlen := limit; items := [] |}.

(** [deque.append]: the value goes to the right end, and when the length
    then exceeds [maxlen] one item is dropped from the left end. *)
Definition deque_append (d : deque) (x : float) : deque :=
  let l := items d ++ [x] in
  {| maxlen := maxlen d;
     items := if maxlen d <? Z.of_nat (length l) then tail l else l |}.

(** ** [InMemoryBackend]: [defaultdict(lambda: deque(maxlen=limit))] *)

Record defaultdict : Type := mkDefaultdict {
  limit : Z;                   (* captured by the default factory *)
  data : gmap string deque
}.

Definition defaultdict_contains (key : string) (d : defaultdict) : bool :=
  bool_decide (is_Some (data d !! key)).

(** [d[key]]: a missing key calls the default factory and stores what it
    returns before handing it out; if the factory raises nothing is
    stored. *)
Definition defaultdict_getitem (key : string) : M defaultdict deque :=
  fun d =>
    match data d !! key with
    | Some q => (Ok q, d)
    | None =>
        match deque_new (limit d) with
        | Ok q => (Ok q, {| limit := limit d; data := <[key := q]> (data d) |})
        | Raise e => (Raise e, d)
        end
    end.

(** ** The Redis connection

    The connection object is not part of [timer.py]; it is modelled by the
    five list commands the backend calls, with the semantics of the Redis
    command reference: a key holds a list of strings, a key whose list
    becomes empty is removed, and a missing key reads as the empty list.
    Every call is recorded in [calls], in order. *)

Inductive command : Type :=
| EXISTS (key : string)
| LLEN (key : string)
| LRANGE (key : string) (start stop : Z)
| LPUSH (key : string) (value : string)
| LTRIM (key : string) (start stop : Z).

Record Redis : Type := mkRedis {
  db : gmap string (list string);
  calls : list command
}.

Definition redis_list (key : string) (r : Redis) : list string :=
  default [] (db r !! key).

(** The elements of [l] at the inclusive index range [start..stop], negative
    indices counting from the end of the list. *)
Definition list_range (l : list string) (start stop : Z) : list string :=
  let llen := Z.of_nat (length l) in
  let start := if start <? 0 then llen + start else start in
  let stop := if stop <? 0 then llen + stop else stop in
  let start := if start <? 0 then 0 else start in
  if (stop <? start) || (llen <=? start) then []
  else
    let stop := if llen <=? stop then llen - 1 else stop in
    take (Z.to_nat (stop - start + 1)) (drop (Z.to_nat start) l).

Definition db_set (key : string) (l : list string)
    (m : gmap string (list string)) : gmap string (list string) :=
  match l with
  | [] => delete key m
  | _ => <[key := l]> m
  end.

Definition redis_exists (key : string) : M Redis bool :=
  fun r => (Ok (bool_decide (is_Some (db r !! key))),
            {| db := db r; calls := calls r ++ [EXISTS key] |}).

Definition redis_llen (key : string) : M Redis Z :=
  fun r => (Ok (Z.of_nat (length (redis_list key r))),
            {| db := db r; calls := calls r ++ [LLEN key] |}).

Definition redis_lrange (key : string) (start stop : Z) : M Redis (list string) :=
  fun r => (Ok (list_range (redis_list key r) start stop),
            {| db := db r; calls := calls r ++ [LRANGE key start stop] |}).

Definition redis_lpush (key : string) (value : string) : M Redis unit :=
  fun r => (Ok tt,
            {| db := <[key := value :: redis_list key r]> (db r);
               calls := calls r ++ [LPUSH key value] |}).

(** [ltrim]: the server refuses bounds that are no signed 64-bit integers
    and leaves the list as it is. *)
Definition redis_ltrim (key : string) (start stop : Z) : M Redis unit :=
  fun r =>
    if fits_int64 start && fits_int64 stop then
      (Ok tt,
       {| db := db_set key (list_range (redis_list key r) start stop) (db r);
          calls := calls r ++ [LTRIM key start stop] |})
    else
      (Raise ResponseError,
       {| db := db r; calls := calls r ++ [LTRIM key start stop] |}).

(** ** Backends, items and the [Timer] class *)

(** What [Timer.measures] can hold: a store built by [InMemoryBackend(limit)],
    a [RedisBackend(redis, prefix, limit)], or the function [InMemoryBackend]
    itself, which is the default value of [Timer.__init__]'s [backend]
    argument. *)
Inductive Backend : Type :=
| InMemoryBackend_function
| InMemory (d : defaultdict)
| RedisBackend (redis : Redis) (prefix : string) (limit : Z).

(** [InMemoryBackend = lambda limit: defaultdict(lambda: deque(maxlen=limit))] *)
Definition InMemoryBackend (limit : Z) : Backend :=
  InMemory {| limit := limit; data := ∅ |}.

(** What [measures[ident]] evaluates to: the deque stored under a key of the
    defaultdict (a reference: it is read and updated in the dict), or a
    [RedisBackendItem(redis, key, limit)] on the backend's connection. *)
Inductive item : Type :=
| Deque (key : string)
| RedisBackendItem (key : string) (limit : Z).

Record Timer : Type := mkTimer {
  measures : Backend
}.

(** The world a [with] block runs in: the timer, and the instant [now] at
    which the time source is read. The body of the block is caller code: any
    computation over the world, which may let time pass, use the timer, or
    raise. *)
Record World : Type := mkWorld {
  self : Timer;
  now : nat
}.

(** A blinker signal, as [signal(name)] returns it. *)
Inductive Signal : Type :=
| signal (name : string).

(** What [timer.py] takes from its environment: the builtins [str] (on a
    float) and [float] (on a string read back from Redis; [None] is its
    [ValueError]), and the module-level [timer_end], which is [None] when
    blinker cannot be imported and [signal("Timer.timer_end")] otherwise. *)
Class Env : Type := mkEnv {
  str : float -> string;
  float_of_str : string -> option float;
  timer_end : option Signal
}.

Section Timer.

Context {env : Env}.

(** A call on the connection of the Redis backend. An item is only used on
    the backend that handed it out, so the other case does not arise; it is
    given the outcome Python has for an operation the object lacks. *)
Definition on_redis {A} (m : M Redis A) : M Backend A :=
  fun b =>
    match b with
    | RedisBackend r prefix limit =>
        let '(a, r') := m r in (a, RedisBackend r' prefix limit)
    | _ => (Raise TypeError, b)
    end.

(** The deque stored under [key], for reading. [measures[key]] has stored
    it before an item refers to it, so the other cases do not arise. *)
Definition read_deque {A} (key : string) (f : deque -> A) : M Backend A :=
  fun b =>
    match b with
    | InMemory d =>
        match data d !! key with
        | Some q => (Ok (f q), b)
        | None => (Raise TypeError, b)
        end
    | _ => (Raise TypeError, b)
    end.

(** The deque stored under [key], updated in place. *)
Definition update_deque (key : string) (f : deque -> deque) : M Backend unit :=
  fun b =>
    match b with
    | InMemory d =>
        match data d !! key with
        | Some q =>
            (Ok tt, InMemory {| limit := limit d;
                                data := <[key := f q]> (data d) |})
        | None => (Raise TypeError, b)
        end
    | _ => (Raise TypeError, b)
    end.

(** [key in measures]. A function is not a container. *)
Definition contains (key : string) : M Backend bool :=
  fun b =>
    match b with
    | InMemoryBackend_function => (Raise TypeError, b)
    | InMemory d => (Ok (defaultdict_contains key d), b)
    | RedisBackend _ prefix _ => on_redis (redis_exists (prefix +:+ key)) b
    end.

(** [measures[key]]. A function is not subscriptable;
    [RedisBackend.__getitem__] builds the item without a remote call. *)
Definition getitem (key : string) : M Backend item :=
  fun b =>
    match b with
    | InMemoryBackend_function => (Raise TypeError, b)
    | InMemory d =>
        match defaultdict_getitem key d with
        | (Ok _, d') => (Ok (Deque key), InMemory d')
        | (Raise e, d') => (Raise e, InMemory d')
        end
    | RedisBackend _ prefix limit =>
        (Ok (RedisBackendItem (prefix +:+ key) limit), b)
    end.

(** [len(item)] *)
Definition len (it : item) : M Backend Z :=
  match it with
  | Deque key => read_deque key (fun q => Z.of_nat (length (items q)))
  | RedisBackendItem key _ => on_redis (redis_llen key)
  end.

Fixpoint parse_all (l : list string) : result (list float) :=
  match l with
  | [] => Ok []
  | s :: l' =>
      match float_of_str s with
      | None => Raise ValueError
      | Some x =>
          match parse_all l' with
          | Ok xs => Ok (x :: xs)
          | Raise e => Raise e
          end
      end
  end.

(** The values [iter(item)] yields when it is run to its end, as [sum]
    does: the deque's items from left to right, or the whole remote list
    ([lrange(key, 0, -1)]) with [float] applied to each entry in turn. *)
Definition iter (it : item) : M Backend (list float) :=
  match it with
  | Deque key => read_deque key items
  | RedisBackendItem key _ =>
      l <- on_redis (redis_lrange key 0 (-1)) ;;
      lift_result (parse_all l)
  end.

(** [item.append(value)] *)
Definition append (it : item) (value : float) : M Backend unit :=
  match it with
  | Deque key => update_deque key (fun q => deque_append q value)
  | RedisBackendItem key limit =>
      on_redis (redis_lpush key (str value)) ;;;
      on_redis (redis_ltrim key 0 (limit - 1))
  end.

(** [Timer.__init__(self, backend=InMemoryBackend)] *)
Definition Timer_init (backend : option Backend) : Timer :=
  {| measures := default InMemoryBackend_function backend |}.

Definition on_measures {A} (m : M Backend A) : M Timer A :=
  fun self => let '(a, b) := m (measures self) in (a, {| measures := b |}).

(** [ident not in self.measures or len(self.measures[ident]) == 0] *)
Definition nothing_recorded (ident : string) : M Timer bool :=
  known <- on_measures (contains ident) ;;
  if negb known then ret true
  else
    it <- on_measures (getitem ident) ;;
    n <- on_measures (len it) ;;
    ret (n =? 0).

Definition getavg (ident : string) : M Timer float :=
  empty <- nothing_recorded ident ;;
  if empty then ret 0%float
  else
    it <- on_measures (getitem ident) ;;
    xs <- on_measures (iter it) ;;
    it' <- on_measures (getitem ident) ;;
    n <- on_measures (len it') ;;
    lift_result (truediv (py_sum xs) n).

Definition getsum (ident : string) : M Timer float :=
  empty <- nothing_recorded ident ;;
  if empty then ret 0%float
  else
    it <- on_measures (getitem ident) ;;
    xs <- on_measures (iter it) ;;
    ret (py_sum xs).

(** The result is [None] when no estimate can be computed. *)
Definition get_time_estimate (ident : string) (actions : Z)
    : M Timer (option float) :=
  empty <- nothing_recorded ident ;;
  if empty then ret None
  else
    avg <- getavg ident ;;
    est <- lift_result (mul_int avg actions) ;;
    ret (Some est).

(** ** The scoped timing region *)

Definition on_self {A} (m : M Timer A) : M World A :=
  fun w => let '(a, t) := m (self w) in (a, {| self := t; now := now w |}).

(** A time source: the reading it gives at each instant. *)
Definition call_method (method : nat -> float) : M World float :=
  fun w => (Ok (method (now w)), w).

(** A generator function with a single [yield], outside any [try]: the code
    before the yield, which leaves the suspended frame with its local
    variables, and the code after it. *)
Record generator (F : Type) : Type := mkGenerator {
  before_yield : M World F;
  after_yield : F -> M World unit
}.
Arguments before_yield {F} g.
Arguments after_yield {F} g.

(** [sig.send(self, ident, start, end)]: blinker's [Signal.send] takes the
    sender as its only positional argument, so this call, with four, is
    refused with [TypeError] before any receiver runs. *)
Definition send (sig : Signal) (self : Timer) (ident : string)
    (start end_ : float) : M World unit :=
  raise TypeError.

(** [if timer_end: timer_end.send(self, ident, start, end)] *)
Definition send_timer_end (ident : string) (start end_ : float) : M World unit :=
  match timer_end with
  | Some sig => fun w => send sig (self w) ident start end_ w
  | None => ret tt
  end.

(** [Timer.__call__(self, ident, method)]: the generator [context()], whose
    frame at the yield holds [start]. *)
Definition call (ident : string) (method : nat -> float) : generator float :=
  {| before_yield := call_method method;
     after_yield := fun start =>
       end_ <- call_method method ;;
       it <- on_self (on_measures (getitem ident)) ;;
       on_self (on_measures (append it (PrimFloat.sub end_ start))) ;;;
       send_timer_end ident start end_ |}.

(** [contextlib.contextmanager]: [__enter__] runs the generator up to its
    yield. [__exit__] without an exception resumes it, and it runs to its
    end. [__exit__] with an exception [e] throws [e] into the generator at
    the yield: no [try] encloses the yield, so the throw leaves the
    generator at once with [e], the code after the yield is not run, and
    [__exit__] returns false. *)
Definition cm_enter {F} (g : generator F) : M World F := before_yield g.

Definition cm_exit {F} (g : generator F) (frame : F) (exc : option exn)
    : M World bool :=
  match exc with
  | None => after_yield g frame ;;; ret false
  | Some _ => ret false
  end.

(** [with cm: body]: an exception of the body is passed to [__exit__] and
    raised again unless [__exit__] returns true. *)
Definition with_ {F} (g : generator F) (body : M World unit) : M World unit :=
  frame <- cm_enter g ;;
  fun w =>
    match body w with
    | (Ok _, w') => (cm_exit g frame None ;;; ret tt) w'
    | (Raise e, w') =>
        (suppress <- cm_exit g frame (Some e) ;;
         if suppress : bool then ret tt else raise e) w'
    end.

(** ** Using the store *)

(** [self.measures[ident].append(value)], the statement of the region's exit
    path that records a sample. *)
Definition record (ident : string) (value : float) : M Backend unit :=
  it <- getitem ident ;;
  append it value.

(** The same statement for each value of a sequence, in order. *)
Fixpoint record_all (ident : string) (values : list float) : M Backend unit :=
  match values with
  | [] => ret tt
  | v :: values' => record ident v ;;; record_all ident values'
  end.

(** A statistics query, and the timer left behind by a sequence of them,
    whatever they return. *)
Inductive query : Type :=
| Getsum (ident : string)
| Getavg (ident : string)
| Get_time_estimate (ident : string) (actions : Z).

Definition run_query (q : query) (t : Timer) : Timer :=
  match q with
  | Getsum ident => snd (getsum ident t)
  | Getavg ident => snd (getavg ident t)
  | Get_time_estimate ident actions => snd (get_time_estimate ident actions t)
  end.

Definition run_queries (qs : list query) (t : Timer) : Timer :=
  fold_left (fun t q => run_query q t) qs t.

End Timer.

(** ** Observations *)

(** The samples an in-memory store retains under [ident], oldest first. *)
Definition history (b : Backend) (ident : string) : list float :=
  match b with
  | InMemory d => from_option items [] (data d !! ident)
  | _ => []
  end.

(** The entries a Redis store retains under [ident], newest first. *)
Definition remote_history (b : Backend) (ident : string) : list string :=
  match b with
  | RedisBackend r prefix _ => redis_list (prefix +:+ ident) r
  | _ => []
  end.

(** The deque [d[ident]] refers to: the stored one, or the one the default
    factory makes. *)
Definition deque_at (d : defaultdict) (ident : string) : deque :=
  default {| maxlen := limit d; items := [] |} (data d !! ident).

(** Recording into a Redis store: the connection after the push and the
    trim. *)
Definition pushed_and_trimmed {env : Env} (r : Redis) (key : string) (L : Z)
    (v : float) : Redis :=
  {| db := db_set key (list_range (str v :: redis_list key r) 0 (L - 1))
             (<[key := str v :: redis_list key r]> (db r));
     calls := calls r ++ [LPUSH key (str v); LTRIM key 0 (L - 1)] |}.

(** A computation that returns from a given state. *)
Definition returns {S A} (m : M S A) (s : S) : Prop :=
  exists a, fst (m s) = Ok a.

(** The connection after some more calls that only read. *)
Definition logged (r : Redis) (cs : list command) : Redis :=
  {| db := db r; calls := calls r ++ cs |}.

(** The number of samples retained under [ident]. *)
Definition count (b : Backend) (ident : string) : nat :=
  match b with
  | InMemoryBackend_function => 0%nat
  | InMemory _ => length (history b ident)
  | RedisBackend _ _ _ => length (remote_history b ident)
  end.

(** A backend that is a store, not the factory function. *)
Definition is_store (b : Backend) : Prop :=
  match b with
  | InMemoryBackend_function => False
  | _ => True
  end.

(** The last [n] elements of a list: the [n] most recent of a sequence of
    appends. *)
Definition lastn {A} (n : nat) (l : list A) : list A :=
  drop (length l - n) l.

(** A time source never runs backwards. *)
Definition monotonic (method : nat -> float) : Prop :=
  forall i j : nat, (i <= j)%nat -> PrimFloat.leb (method i) (method j) = true.

(** ** A concrete environment

    An environment without blinker, whose [str] and [float] know the decimal
    forms of a few floats, and a coarse clock; they serve to run the model on
    concrete inputs. *)
Module Demo.

Definition decimals : list (float * string) :=
  [(1%float, "1.0"); (2%float, "2.0"); (3%float, "3.0"); (4%float, "4.0");
   (5%float, "5.0")]%string.

Definition demo_str (x : float) : string :=
  from_option snd "nan"%string
    (List.find (fun p => PrimFloat.eqb (fst p) x) decimals).

Definition demo_float (s : string) : option float :=
  fst <$> List.find (fun p => String.eqb (snd p) s) decimals.

Definition demo_env : Env :=
  {| str := demo_str; float_of_str := demo_float; timer_end := None |}.

(** The same environment with blinker installed. *)
Definition blinker_env : Env :=
  {| str := demo_str; float_of_str := demo_float;
     timer_end := Some (signal "Timer.timer_end") |}.

(** A clock that only shows the last multiple of five seconds. *)
Definition clock (i : nat) : float :=
  if (i <? 5)%nat then 0%float else 5%float.

Definition job : string := "job".

(** A body that takes five seconds and then raises. *)
Definition failing_body : M World unit :=
  fun w => (Raise (Exception "boom"),
            {| self := self w; now := (now w + 5)%nat |}).

(** A body that takes five seconds. *)
Definition sleeping_body : M World unit :=
  fun w => (Ok tt, {| self := self w; now := (now w + 5)%nat |}).

(** The timers of the two stores after the appends 1.0, 2.0, 3.0, 4.0 under
    "job" with capacity 3. *)
Definition job_timer : Timer :=
  {| measures :=
       snd (record_all (env := demo_env) job [1; 2; 3; 4]%float
              (InMemoryBackend 3)) |}.

Definition job_timer_redis : Timer :=
  {| measures :=
       snd (record_all (env := demo_env) job [1; 2; 3; 4]%float
              (RedisBackend {| db := ∅; calls := [] |} "timer:" 3)) |}.

(** A connection whose list under "job" holds an entry that is no number. *)
Definition spoiled : Redis :=
  {| db := {[ "job"%string := ["1.0"; "oops"]%string ]}; calls := [] |}.

(** Appends to two identifiers, interleaved. *)
Definition two_jobs : list (string * float) :=
  [("a", 1); ("b", 2); ("a", 3); ("a", 4); ("b", 5); ("a", 1)]%string%float.

End Demo.

(** ** More of the module: constructor defaults and usage patterns *)

(** [RedisBackend.__init__(self, redis, prefix='', limit=100)]; [None]
    stands for an argument left out. *)
Definition RedisBackend_init (redis : Redis) (prefix : option string)
    (limit : option Z) : Backend :=
  RedisBackend redis (default ""%string prefix) (default 100 limit).

(** [self.measures[ident].append(value)] for each pair of a sequence, in
    order: the appends of regions on several identifiers, interleaved. *)
Fixpoint record_each {env : Env} (ops : list (string * float))
    : M Backend unit :=
  match ops with
  | [] => ret tt
  | (ident, v) :: ops' => record ident v ;;; record_each ops'
  end.

(** The values such a sequence appends under [ident], in order. *)
Fixpoint values_of (ident : string) (ops : list (string * float))
    : list float :=
  match ops with
  | [] => []
  | (k, v) :: ops' =>
      if decide (k = ident) then v :: values_of ident ops'
      else values_of ident ops'
  end.

(** The remote calls such a sequence makes on a Redis store. *)
Definition append_calls {env : Env} (prefix : string) (L : Z)
    (ops : list (string * float)) : list command :=
  flat_map (fun op => [LPUSH (prefix +:+ fst op) (str (snd op));
                       LTRIM (prefix +:+ fst op) 0 (L - 1)]) ops.

(** Every deque of an in-memory store was made by the default factory and
    is within its capacity. *)
Definition within_capacity (d : defaultdict) : Prop :=
  forall (k : string) (q : deque),
    data d !! k = Some q ->
    maxlen q = limit d /\ Z.of_nat (length (items q)) <= limit d.

(** From timer [t] to timer [t'], both on a Redis store, the remote data is
    the same and the connection was called with exactly [cs], in order. *)
Definition only_called (t t' : Timer) (cs : list command) : Prop :=
  match measures t, measures t' with
  | RedisBackend r prefix L, RedisBackend r' prefix' L' =>
      prefix' = prefix /\ L' = L /\ db r' = db r /\ calls r' = calls r ++ cs
  | _, _ => False
  end.

(** A body that lets [d] instants pass and returns, leaving the timer
    alone. *)
Definition sleep (d : nat) : M World unit :=
  fun w => (Ok tt, {| self := self w; now := (now w + d)%nat |}).

(** [for d in durations: with timer(ident, method): sleep(d)] *)
Fixpoint timed_loop {env : Env} (ident : string) (method : nat -> float)
    (durations : list nat) : M World unit :=
  match durations with
  | [] => ret tt
  | d :: durations' =>
      with_ (call ident method) (sleep d) ;;; timed_loop ident method durations'
  end.

(** The samples of such a loop entered at instant [t]. *)
Fixpoint loop_samples (method : nat -> float) (t : nat) (durations : list nat)
    : list float :=
  match durations with
  | [] => []
  | d :: durations' =>
      PrimFloat.sub (method (t + d)%nat) (method t)
      :: loop_samples method (t + d)%nat durations'
  end.

(** ** Lists: ranges and the most recent elements *)

(** Case analysis on the integer comparisons of the goal. *)
Ltac split_cmp :=
  repeat match goal with
  | |- context [Z.ltb ?a ?b] => destruct (Z.ltb_spec a b)
  | |- context [Z.leb ?a ?b] => destruct (Z.leb_spec a b)
  end.

Lemma lastn_length {A} (n : nat) (l : list A) :
  length (lastn n l) = Nat.min (length l) n.
Proof. unfold lastn. rewrite length_drop. lia. Qed.

Lemma lastn_all {A} (n : nat) (l : list A) :
  (length l <= n)%nat -> lastn n l = l.
Proof.
  intros Hle. unfold lastn.
  replace (length l - n)%nat with 0%nat by lia. reflexivity.
Qed.

Lemma take_app_take {A} (a b : list A) (n m : nat) :
  (m <= n)%nat -> take m (a ++ take n b) = take m (a ++ b).
Proof.
  revert m. induction a as [|x a IH]; intros m Hle; simpl.
  - rewrite take_take. f_equal. lia.
  - destruct m as [|m]; [reflexivity|]. simpl. f_equal. apply IH. lia.
Qed.

(** Trimming to the index range [0..L-1] keeps the first [L] entries. *)
Lemma list_range_front (l : list string) (L : Z) :
  1 <= L -> list_range l 0 (L - 1) = take (Z.to_nat L) l.
Proof.
  intros HL. unfold list_range. cbv zeta.
  split_cmp; simpl; try lia; rewrite ?drop_0.
  all: first
    [ by (f_equal; lia)
    | by (rewrite !take_ge by lia)
    | destruct l; simpl in *; [by rewrite take_nil | lia] ].
Qed.

(** The whole list is the index range [0..-1]. *)
Lemma list_range_all (l : list string) : list_range l 0 (-1) = l.
Proof.
  unfold list_range. cbv zeta.
  split_cmp; simpl; try lia; rewrite ?drop_0.
  all: first
    [ by (apply take_ge; lia)
    | destruct l; simpl in *; [reflexivity | lia] ].
Qed.

(** ** The bounded deque *)

Lemma fits_int64_spec (z : Z) :
  fits_int64 z = true <-> - ssize_max - 1 <= z <= ssize_max.
Proof. unfold fits_int64. rewrite andb_true_iff, !Z.leb_le. tauto. Qed.

Lemma deque_new_ok (L : Z) :
  0 <= L <= ssize_max -> deque_new L = Ok {| maxlen := L; items := [] |}.
Proof.
  intros HL. unfold deque_new.
  rewrite (proj2 (fits_int64_spec L)) by (unfold ssize_max in *; lia).
  simpl. by destruct (Z.ltb_spec L 0); [lia|].
Qed.

Lemma deque_new_negative (L : Z) :
  - ssize_max - 1 <= L < 0 -> deque_new L = Raise ValueError.
Proof.
  intros HL. unfold deque_new.
  rewrite (proj2 (fits_int64_spec L)) by (unfold ssize_max in *; lia).
  simpl. by destruct (Z.ltb_spec L 0); [|lia].
Qed.

Lemma deque_new_overflow (L : Z) :
  L < - ssize_max - 1 \/ ssize_max < L -> deque_new L = Raise OverflowError.
Proof.
  intros HL. unfold deque_new.
  destruct (fits_int64 L) eqn:E; [|reflexivity].
  apply fits_int64_spec in E. lia.
Qed.

Lemma deque_append_maxlen (q : deque) (x : float) :
  maxlen (deque_append q x) = maxlen q.
Proof. reflexivity. Qed.

Lemma deque_append_items (q : deque) (x : float) :
  (Z.of_nat (length (items q)) <= maxlen q) ->
  items (deque_append q x) = lastn (Z.to_nat (maxlen q)) (items q ++ [x]).
Proof.
  intros Hle. unfold deque_append, lastn. simpl.
  rewrite length_app. simpl.
  destruct (Z.ltb_spec (maxlen q) (Z.of_nat (length (items q) + 1))).
  - assert (Z.to_nat (maxlen q) = length (items q)) as -> by lia.
    replace (length (items q) + 1 - length (items q))%nat with 1%nat by lia.
    destruct (items q ++ [x]); reflexivity.
  - replace (length (items q) + 1 - Z.to_nat (maxlen q))%nat with 0%nat by lia.
    reflexivity.
Qed.

Lemma deque_append_bounded (q : deque) (x : float) :
  0 <= maxlen q ->
  (Z.of_nat (length (items q)) <= maxlen q) ->
  (Z.of_nat (length (items (deque_append q x))) <= maxlen q).
Proof.
  intros H0 Hle. rewrite deque_append_items by assumption.
  rewrite lastn_length. lia.
Qed.

Lemma lastn_app_lastn {A} (n : nat) (a b : list A) :
  lastn n (lastn n a ++ b) = lastn n (a ++ b).
Proof.
  unfold lastn. rewrite !length_app, length_drop.
  destruct (decide (length a <= n)%nat) as [Hle|Hgt].
  - replace (length a - n)%nat with 0%nat by lia. simpl.
    f_equal. lia.
  - rewrite (drop_app a b).
    destruct (decide (length b <= n)%nat) as [Hb|Hb].
    + rewrite drop_app_le by (rewrite length_drop; lia).
      rewrite drop_drop.
      replace (length a + length b - n - length a)%nat with 0%nat by lia.
      simpl. f_equal. f_equal. lia.
    + rewrite drop_app_ge by (rewrite length_drop; lia).
      rewrite length_drop.
      rewrite (drop_ge a) by lia. simpl. f_equal. lia.
Qed.

(** A run of appends leaves the most recent [maxlen] items. *)
Lemma deque_append_all (vs : list float) (q : deque) :
  0 <= maxlen q ->
  (Z.of_nat (length (items q)) <= maxlen q) ->
  items (fold_left deque_append vs q)
  = lastn (Z.to_nat (maxlen q)) (items q ++ vs)
  /\ maxlen (fold_left deque_append vs q) = maxlen q.
Proof.
  revert q. induction vs as [|v vs IH]; intros q H0 Hle; simpl.
  - rewrite app_nil_r. split; [|reflexivity].
    symmetry. apply lastn_all. lia.
  - destruct (IH (deque_append q v)) as [Hitems Hmax].
    + by rewrite deque_append_maxlen.
    + rewrite deque_append_maxlen. by apply deque_append_bounded.
    + rewrite Hitems, Hmax, deque_append_maxlen. split; [|reflexivity].
      rewrite deque_append_items by assumption.
      rewrite lastn_app_lastn. by rewrite <- app_assoc.
Qed.

(** ** The stores *)

Section Properties.

Context {env : Env}.

Lemma history_deque_at (d : defaultdict) (ident : string) :
  history (InMemory d) ident = items (deque_at d ident).
Proof. unfold history, deque_at. by destruct (data d !! ident). Qed.

(** Recording into an in-memory store of a capacity from 0 to [2^63 - 1]
    updates the deque of the identifier and nothing else. *)
Lemma record_in_memory (d : defaultdict) (ident : string) (v : float) :
  0 <= limit d <= ssize_max ->
  record ident v (InMemory d)
  = (Ok tt, InMemory {| limit := limit d;
                        data := <[ident := deque_append (deque_at d ident) v]>
                                  (data d) |}).
Proof.
  intros HL. unfold record, bind, getitem, defaultdict_getitem, deque_at.
  destruct (data d !! ident) as [q|] eqn:E; simpl.
  - unfold update_deque. by rewrite E.
  - rewrite deque_new_ok by assumption.
    unfold update_deque. simpl.
    by rewrite lookup_insert_eq, insert_insert_eq.
Qed.

Lemma record_all_in_memory (vs : list float) (d : defaultdict) (ident : string) :
  0 <= limit d <= ssize_max ->
  exists d',
    record_all ident vs (InMemory d) = (Ok tt, InMemory d')
    /\ limit d' = limit d
    /\ (forall k, k ≠ ident -> data d' !! k = data d !! k)
    /\ deque_at d' ident = fold_left deque_append vs (deque_at d ident).
Proof.
  revert d. induction vs as [|v vs IH]; intros d HL; simpl.
  - by exists d.
  - unfold bind. rewrite record_in_memory by assumption.
    set (d1 := {| limit := limit d;
                  data := <[ident := deque_append (deque_at d ident) v]> (data d) |}).
    destruct (IH d1 HL) as (d' & Hrun & Hlim & Hother & Hat).
    exists d'. repeat split; try assumption.
    + intros k Hk. rewrite (Hother k Hk). subst d1. simpl.
      by rewrite lookup_insert_ne.
    + rewrite Hat. f_equal. unfold deque_at at 1. subst d1. simpl.
      by rewrite lookup_insert_eq.
Qed.

(** The remote list under a key after the list of some key was set. *)
Lemma lookup_db_set (key k : string) (l : list string)
    (m : gmap string (list string)) :
  default [] (db_set key l m !! k)
  = if decide (k = key) then l else default [] (m !! k).
Proof.
  unfold db_set. destruct (decide (k = key)) as [->|Hne].
  - destruct l; [by rewrite lookup_delete_eq | by rewrite lookup_insert_eq].
  - destruct l; [by rewrite lookup_delete_ne | by rewrite lookup_insert_ne].
Qed.

Lemma lookup_db_set_ne (key k : string) (l : list string)
    (m : gmap string (list string)) :
  k ≠ key -> db_set key l m !! k = m !! k.
Proof.
  intros Hne. unfold db_set.
  destruct l; [by rewrite lookup_delete_ne | by rewrite lookup_insert_ne].
Qed.

(** The limits whose trim bound [L - 1] the server accepts. *)
Lemma ltrim_bounds_ok (L : Z) :
  - ssize_max <= L <= ssize_max + 1 -> fits_int64 (L - 1) = true.
Proof. intros HL. apply fits_int64_spec. lia. Qed.

Lemma ltrim_bounds_refused (L : Z) :
  L < - ssize_max \/ ssize_max + 1 < L -> fits_int64 (L - 1) = false.
Proof.
  intros HL. destruct (fits_int64 (L - 1)) eqn:E; [|reflexivity].
  apply fits_int64_spec in E. lia.
Qed.

Lemma record_redis (r : Redis) (prefix : string) (L : Z) (ident : string)
    (v : float) :
  - ssize_max <= L <= ssize_max + 1 ->
  record ident v (RedisBackend r prefix L)
  = (Ok tt, RedisBackend (pushed_and_trimmed r (prefix +:+ ident) L v) prefix L).
Proof.
  intros HL.
  unfold record, bind, getitem, append, bind, on_redis, redis_lpush,
    redis_ltrim, pushed_and_trimmed, redis_list. simpl.
  rewrite (ltrim_bounds_ok L HL).
  rewrite lookup_insert_eq. simpl. by rewrite <- app_assoc.
Qed.

(** Outside these limits the append raises after its push: the entry is in
    the list, which is not trimmed. *)
Lemma record_redis_refused (r : Redis) (prefix : string) (L : Z)
    (ident : string) (v : float) :
  L < - ssize_max \/ ssize_max + 1 < L ->
  let key := prefix +:+ ident in
  record ident v (RedisBackend r prefix L)
  = (Raise ResponseError,
     RedisBackend
       {| db := <[key := str v :: redis_list key r]> (db r);
          calls := calls r ++ [LPUSH key (str v); LTRIM key 0 (L - 1)] |}
       prefix L).
Proof.
  intros HL.
  unfold record, bind, getitem, append, bind, on_redis, redis_lpush,
    redis_ltrim, redis_list. simpl.
  rewrite (ltrim_bounds_refused L HL). by rewrite <- app_assoc.
Qed.

Lemma pushed_and_trimmed_list (r : Redis) (key : string) (L : Z) (v : float) :
  1 <= L ->
  redis_list key (pushed_and_trimmed r key L v)
  = take (Z.to_nat L) (str v :: redis_list key r).
Proof.
  intros HL. unfold redis_list at 1. unfold pushed_and_trimmed. simpl.
  rewrite lookup_db_set. rewrite decide_True by reflexivity.
  by apply list_range_front.
Qed.

Lemma pushed_and_trimmed_other (r : Redis) (key k : string) (L : Z) (v : float) :
  k ≠ key -> db (pushed_and_trimmed r key L v) !! k = db r !! k.
Proof.
  intros Hne. unfold pushed_and_trimmed. simpl.
  rewrite lookup_db_set_ne by assumption. by rewrite lookup_insert_ne.
Qed.

Lemma record_all_redis (vs : list float) (r : Redis) (prefix : string) (L : Z)
    (ident : string) :
  1 <= L <= ssize_max + 1 ->
  (length (redis_list (prefix +:+ ident) r) <= Z.to_nat L)%nat ->
  exists r',
    record_all ident vs (RedisBackend r prefix L)
    = (Ok tt, RedisBackend r' prefix L)
    /\ redis_list (prefix +:+ ident) r'
       = take (Z.to_nat L)
           (reverse (str <$> vs) ++ redis_list (prefix +:+ ident) r).
Proof.
  intros HL. revert r. induction vs as [|v vs IH]; intros r Hlen; simpl.
  - exists r. split; [reflexivity|]. by rewrite take_ge.
  - unfold bind. rewrite record_redis by (unfold ssize_max in *; lia).
    set (r1 := pushed_and_trimmed r (prefix +:+ ident) L v).
    assert (Hr1 : redis_list (prefix +:+ ident) r1
                  = take (Z.to_nat L) (str v :: redis_list (prefix +:+ ident) r))
      by (apply pushed_and_trimmed_list; lia).
    destruct (IH r1) as (r' & Hrun & Hlist).
    + rewrite Hr1, length_take. lia.
    + exists r'. split; [assumption|].
      rewrite Hlist, Hr1, take_app_take by lia.
      by rewrite reverse_cons, <- app_assoc.
Qed.

(** ** The statistics queries on an in-memory store *)

Lemma nothing_recorded_in_memory (d : defaultdict) (ident : string) :
  nothing_recorded ident {| measures := InMemory d |}
  = (Ok (Z.of_nat (count (InMemory d) ident) =? 0), {| measures := InMemory d |}).
Proof.
  unfold nothing_recorded, bind, on_measures, contains, defaultdict_contains,
    count, history. simpl.
  destruct (data d !! ident) as [q|] eqn:E; simpl; [|reflexivity].
  unfold defaultdict_getitem. rewrite E. simpl.
  unfold read_deque. by rewrite E.
Qed.

Lemma getsum_in_memory (d : defaultdict) (ident : string) :
  getsum ident {| measures := InMemory d |}
  = (Ok (if Z.of_nat (count (InMemory d) ident) =? 0 then 0%float
         else py_sum (history (InMemory d) ident)),
     {| measures := InMemory d |}).
Proof.
  unfold getsum, bind. rewrite nothing_recorded_in_memory.
  destruct (Z.of_nat (count (InMemory d) ident) =? 0) eqn:E; [reflexivity|].
  unfold count, history in *. simpl in *.
  unfold on_measures, getitem, defaultdict_getitem. simpl.
  destruct (data d !! ident) as [q|] eqn:Eq; simpl in *; [|discriminate].
  unfold read_deque. by rewrite Eq.
Qed.

Lemma getavg_in_memory (d : defaultdict) (ident : string) :
  getavg ident {| measures := InMemory d |}
  = (if Z.of_nat (count (InMemory d) ident) =? 0 then Ok 0%float
     else truediv (py_sum (history (InMemory d) ident))
            (Z.of_nat (count (InMemory d) ident)),
     {| measures := InMemory d |}).
Proof.
  unfold getavg, bind. rewrite nothing_recorded_in_memory.
  destruct (Z.of_nat (count (InMemory d) ident) =? 0) eqn:E; [reflexivity|].
  unfold count, history in *. simpl in *.
  unfold on_measures, getitem, defaultdict_getitem. simpl.
  destruct (data d !! ident) as [q|] eqn:Eq; simpl in *; [|discriminate].
  unfold read_deque, lift_result. simpl.
  repeat (rewrite Eq; simpl). reflexivity.
Qed.

Lemma get_time_estimate_in_memory (d : defaultdict) (ident : string)
    (actions : Z) :
  get_time_estimate ident actions {| measures := InMemory d |}
  = (if Z.of_nat (count (InMemory d) ident) =? 0 then Ok None
     else match fst (getavg ident {| measures := InMemory d |}) with
          | Ok avg =>
              match mul_int avg actions with
              | Ok est => Ok (Some est)
              | Raise e => Raise e
              end
          | Raise e => Raise e
          end,
     {| measures := InMemory d |}).
Proof.
  unfold get_time_estimate, bind. rewrite nothing_recorded_in_memory.
  destruct (Z.of_nat (count (InMemory d) ident) =? 0) eqn:E; [reflexivity|].
  rewrite getavg_in_memory. rewrite E. simpl.
  destruct (truediv _ _) as [avg|e]; [|reflexivity].
  unfold lift_result. by destruct (mul_int avg actions).
Qed.

(** ** The statistics queries on a Redis store *)

Lemma redis_list_logged (key : string) (r : Redis) (cs : list command) :
  redis_list key (logged r cs) = redis_list key r.
Proof. reflexivity. Qed.

Lemma nothing_recorded_redis (r : Redis) (prefix : string) (L : Z)
    (ident : string) :
  let key := prefix +:+ ident in
  nothing_recorded ident {| measures := RedisBackend r prefix L |}
  = (Ok (Z.of_nat (length (redis_list key r)) =? 0),
     {| measures :=
          RedisBackend
            (logged r (if bool_decide (is_Some (db r !! key))
                       then [EXISTS key; LLEN key] else [EXISTS key]))
            prefix L |}).
Proof.
  unfold nothing_recorded, bind, on_measures, contains, on_redis,
    redis_exists, redis_list, logged. simpl.
  destruct (db r !! (prefix +:+ ident)) as [l|] eqn:E; simpl; [|reflexivity].
  unfold redis_list. simpl. rewrite E. simpl. by rewrite <- app_assoc.
Qed.

Lemma getsum_redis (r : Redis) (prefix : string) (L : Z) (ident : string) :
  let b := RedisBackend r prefix L in
  fst (getsum ident {| measures := b |})
  = if Z.of_nat (count b ident) =? 0 then Ok 0%float
    else match parse_all (remote_history b ident) with
         | Ok xs => Ok (py_sum xs)
         | Raise e => Raise e
         end.
Proof.
  unfold getsum, bind. simpl. rewrite nothing_recorded_redis.
  destruct (Z.of_nat (length _) =? 0) eqn:E; [reflexivity|].
  unfold on_measures, getitem, iter, bind, on_redis, redis_lrange. simpl.
  rewrite redis_list_logged, list_range_all. unfold lift_result.
  by destruct (parse_all _).
Qed.

Lemma getavg_redis (r : Redis) (prefix : string) (L : Z) (ident : string) :
  let b := RedisBackend r prefix L in
  fst (getavg ident {| measures := b |})
  = if Z.of_nat (count b ident) =? 0 then Ok 0%float
    else match parse_all (remote_history b ident) with
         | Ok xs => truediv (py_sum xs) (Z.of_nat (count b ident))
         | Raise e => Raise e
         end.
Proof.
  unfold getavg, bind. simpl. rewrite nothing_recorded_redis.
  destruct (Z.of_nat (length _) =? 0) eqn:E; [reflexivity|].
  unfold on_measures, getitem, iter, len, bind, on_redis, redis_lrange,
    redis_llen. simpl.
  rewrite redis_list_logged, list_range_all. unfold lift_result.
  by destruct (parse_all _).
Qed.

Lemma get_time_estimate_redis (r : Redis) (prefix : string) (L : Z)
    (ident : string) (actions : Z) :
  let b := RedisBackend r prefix L in
  fst (get_time_estimate ident actions {| measures := b |})
  = if Z.of_nat (count b ident) =? 0 then Ok None
    else match fst (getavg ident {| measures := b |}) with
         | Ok avg =>
             match mul_int avg actions with
             | Ok est => Ok (Some est)
             | Raise e => Raise e
             end
         | Raise e => Raise e
         end.
Proof.
  cbv zeta. rewrite getavg_redis.
  unfold get_time_estimate, bind. rewrite nothing_recorded_redis.
  simpl. destruct (Z.of_nat (length _) =? 0) eqn:E; [reflexivity|].
  match goal with
  | |- context [getavg ident {| measures := RedisBackend ?r' _ _ |}] =>
      pose proof (getavg_redis r' prefix L ident) as Havg;
      cbv zeta in Havg;
      destruct (getavg ident {| measures := RedisBackend r' prefix L |})
        as [res t']
  end.
  unfold count, remote_history in Havg. simpl fst in Havg.
  rewrite redis_list_logged, E in Havg. subst res.
  destruct (parse_all _) as [xs|e]; [|reflexivity].
  destruct (truediv _ _) as [avg|e]; [|reflexivity].
  unfold lift_result. by destruct (mul_int avg actions).
Qed.

(** ** Bounded histories *)

(** C4, as the code has it: with a capacity [L] from 1 to [2^63 - 1],
    after any sequence of [N] appends to an identifier the store has not
    seen, the retained history has length [min N L] and holds exactly the
    [L] most recently appended values: in insertion order in the in-memory
    store, and as their [str] forms, newest first, in the Redis store. *)
Theorem bounded_history (L : Z) (ident : string) (vs : list float) :
  1 <= L <= ssize_max ->
  (forall d : defaultdict,
      limit d = L -> data d !! ident = None ->
      exists b',
        record_all ident vs (InMemory d) = (Ok tt, b')
        /\ history b' ident = lastn (Z.to_nat L) vs
        /\ length (history b' ident) = Nat.min (length vs) (Z.to_nat L))
  /\ (forall (r : Redis) (prefix : string),
      db r !! (prefix +:+ ident) = None ->
      exists b',
        record_all ident vs (RedisBackend r prefix L) = (Ok tt, b')
        /\ remote_history b' ident = reverse (str <$> lastn (Z.to_nat L) vs)
        /\ length (remote_history b' ident) = Nat.min (length vs) (Z.to_nat L)).
Proof.
  intros HL. split.
  - intros d Hlim Hfresh.
    destruct (record_all_in_memory vs d ident) as (d' & Hrun & _ & _ & Hat);
      [lia|].
    assert (Hitems : history (InMemory d') ident = lastn (Z.to_nat L) vs).
    { rewrite history_deque_at, Hat. unfold deque_at. rewrite Hfresh. simpl.
      destruct (deque_append_all vs {| maxlen := limit d; items := [] |})
        as [Hitems _]; simpl; [lia | lia |].
      by rewrite Hitems, Hlim. }
    exists (InMemory d'). repeat split; [assumption | assumption |].
    by rewrite Hitems, lastn_length.
  - intros r prefix Hfresh.
    assert (Hempty : redis_list (prefix +:+ ident) r = []).
    { unfold redis_list. by rewrite Hfresh. }
    destruct (record_all_redis vs r prefix L ident) as (r' & Hrun & Hlist).
    { lia. }
    { rewrite Hempty. simpl. lia. }
    assert (Hhist : remote_history (RedisBackend r' prefix L) ident
                    = reverse (str <$> lastn (Z.to_nat L) vs)).
    { simpl. rewrite Hlist, Hempty, app_nil_r, take_reverse.
      unfold lastn. by rewrite length_fmap, fmap_drop. }
    exists (RedisBackend r' prefix L). repeat split; [assumption | assumption |].
    by rewrite Hhist, length_reverse, length_fmap, lastn_length.
Qed.

(** C8: on the Redis store, appending [v] under [ident] makes exactly two
    calls on the connection, in this order: [lpush(key, str(v))] and
    [ltrim(key, 0, L - 1)] with [key = prefix + ident]; no other key of the
    remote store changes. With [L] from 1 to [2^63] the append returns and
    the list at [key] is left with its [L] newest entries, [str(v)] at the
    front; with a limit whose bound [L - 1] is no signed 64-bit integer the
    server refuses the trim and the append raises after its push. *)
Theorem redis_append_two_operations (r : Redis) (prefix : string) (L : Z)
    (ident : string) (v : float) :
  let key := prefix +:+ ident in
  exists out r',
    record ident v (RedisBackend r prefix L) = (out, RedisBackend r' prefix L)
    /\ calls r' = calls r ++ [LPUSH key (str v); LTRIM key 0 (L - 1)]
    /\ (forall k, k ≠ key -> db r' !! k = db r !! k)
    /\ (1 <= L <= ssize_max + 1 ->
        out = Ok tt
        /\ redis_list key r' = take (Z.to_nat L) (str v :: redis_list key r))
    /\ (L < - ssize_max \/ ssize_max + 1 < L ->
        out = Raise ResponseError
        /\ redis_list key r' = str v :: redis_list key r).
Proof.
  intros key.
  destruct (Z_le_gt_dec (- ssize_max) L) as [Hlo|Hlo];
    [destruct (Z_le_gt_dec L (ssize_max + 1)) as [Hhi|Hhi]|].
  - exists (Ok tt), (pushed_and_trimmed r key L v).
    split; [apply record_redis; lia|]. split; [reflexivity|].
    split; [intros k Hk; by apply pushed_and_trimmed_other|].
    split; [|lia].
    intros HL. split; [reflexivity|]. apply pushed_and_trimmed_list. lia.
  - eexists _, _. split; [apply record_redis_refused; lia|].
    split; [reflexivity|].
    split; [intros k Hk; simpl; by rewrite lookup_insert_ne|].
    split; [lia|]. intros _. split; [reflexivity|].
    unfold redis_list at 1. simpl. by rewrite lookup_insert_eq.
  - eexists _, _. split; [apply record_redis_refused; lia|].
    split; [reflexivity|].
    split; [intros k Hk; simpl; by rewrite lookup_insert_ne|].
    split; [lia|]. intros _. split; [reflexivity|].
    unfold redis_list at 1. simpl. by rewrite lookup_insert_eq.
Qed.

(** What the Redis store reads back after an append: [float] applied to the
    entries of the trimmed list, [str(v)] first. *)
Lemma redis_read_back (r : Redis) (prefix : string) (L : Z) (ident : string)
    (v : float) :
  1 <= L <= ssize_max + 1 ->
  fst ((record ident v ;;; it <- getitem ident ;; iter it)
         (RedisBackend r prefix L))
  = parse_all (take (Z.to_nat L)
                 (str v :: redis_list (prefix +:+ ident) r)).
Proof.
  intros HL. unfold bind at 1. rewrite record_redis by lia.
  unfold bind, getitem, iter, bind, on_redis, redis_lrange, lift_result. simpl.
  rewrite list_range_all.
  rewrite <- (pushed_and_trimmed_list r (prefix +:+ ident) L v) by lia.
  by destruct (parse_all _).
Qed.

(** ** The statistics *)

(** C5: for an identifier the store does not know, or with no recorded
    sample, [getsum] and [getavg] return exactly [0.0] and
    [get_time_estimate] returns [None], which is not the estimate [0.0]. *)
Theorem nothing_recorded_defaults (t : Timer) (ident : string) (actions : Z) :
  is_store (measures t) ->
  count (measures t) ident = 0%nat ->
  fst (getsum ident t) = Ok 0%float
  /\ fst (getavg ident t) = Ok 0%float
  /\ fst (get_time_estimate ident actions t) = Ok None
  /\ fst (get_time_estimate ident actions t) ≠ Ok (Some 0%float).
Proof.
  intros Hstore Hcount. destruct t as [[|d|r prefix L]]; simpl in Hstore.
  - contradiction.
  - rewrite getsum_in_memory, getavg_in_memory, get_time_estimate_in_memory.
    simpl measures in Hcount. rewrite Hcount. simpl. by repeat split.
  - pose proof (getsum_redis r prefix L ident) as Hsum.
    pose proof (getavg_redis r prefix L ident) as Havg.
    pose proof (get_time_estimate_redis r prefix L ident actions) as Hest.
    cbv zeta in Hsum, Havg, Hest. simpl measures in Hcount.
    rewrite Hcount in Hsum, Havg, Hest. simpl in Hsum, Havg, Hest.
    rewrite Hsum, Havg, Hest. by repeat split.
Qed.

(** C6: for an identifier with at least one retained sample, in either
    store, [getavg] is the sum [getsum] returns divided, as floats, by the
    number of retained samples (and raises what [getsum] raises when a
    stored entry does not parse). *)
Theorem getavg_is_getsum_over_count (t : Timer) (ident : string) :
  is_store (measures t) ->
  (0 < count (measures t) ident)%nat ->
  fst (getavg ident t)
  = match fst (getsum ident t) with
    | Ok total =>
        match float_of_int (Z.of_nat (count (measures t) ident)) with
        | Ok n =>
            if PrimFloat.eqb n 0%float then Raise ZeroDivisionError
            else Ok (PrimFloat.div total n)
        | Raise e => Raise e
        end
    | Raise e => Raise e
    end.
Proof.
  intros Hstore Hcount. destruct t as [[|d|r prefix L]]; simpl in Hstore.
  - contradiction.
  - rewrite getsum_in_memory, getavg_in_memory. simpl measures in *.
    destruct (Z.eqb_spec (Z.of_nat (count (InMemory d) ident)) 0); [lia|].
    reflexivity.
  - pose proof (getsum_redis r prefix L ident) as Hsum.
    pose proof (getavg_redis r prefix L ident) as Havg.
    cbv zeta in Hsum, Havg. simpl measures in *. rewrite Hsum, Havg.
    destruct (Z.eqb_spec (Z.of_nat (count (RedisBackend r prefix L) ident)) 0);
      [lia|].
    by destruct (parse_all _).
Qed.

(** The estimate over a store with at least one retained sample. *)
Lemma get_time_estimate_spec (t : Timer) (ident : string) (actions : Z) :
  is_store (measures t) ->
  (0 < count (measures t) ident)%nat ->
  fst (get_time_estimate ident actions t)
  = match fst (getavg ident t) with
    | Ok avg =>
        match mul_int avg actions with
        | Ok est => Ok (Some est)
        | Raise e => Raise e
        end
    | Raise e => Raise e
    end.
Proof.
  intros Hstore Hcount. destruct t as [[|d|r prefix L]]; simpl in Hstore.
  - contradiction.
  - rewrite get_time_estimate_in_memory. simpl measures in *.
    destruct (Z.eqb_spec (Z.of_nat (count (InMemory d) ident)) 0); [lia|].
    reflexivity.
  - pose proof (get_time_estimate_redis r prefix L ident actions) as Hest.
    cbv zeta in Hest. simpl measures in *. rewrite Hest.
    destruct (Z.eqb_spec (Z.of_nat (count (RedisBackend r prefix L) ident)) 0);
      [lia|].
    reflexivity.
Qed.


(** C10: on an in-memory store the statistics queries are read-only: any
    sequence of them leaves the timer and its store as they were, and for an
    identifier the store does not contain each query returns its default
    without creating an entry. *)
Theorem statistics_are_read_only (d : defaultdict) :
  let t := {| measures := InMemory d |} in
  (forall qs : list query, run_queries qs t = t)
  /\ (forall (ident : string) (actions : Z),
        data d !! ident = None ->
        getsum ident t = (Ok 0%float, t)
        /\ getavg ident t = (Ok 0%float, t)
        /\ get_time_estimate ident actions t = (Ok None, t)).
Proof.
  intros t. subst t. split.
  - induction qs as [|q qs IH]; [reflexivity|].
    unfold run_queries in *. simpl.
    replace (run_query q {| measures := InMemory d |})
      with {| measures := InMemory d |}; [exact IH|].
    destruct q; simpl;
      by rewrite ?getsum_in_memory, ?getavg_in_memory,
           ?get_time_estimate_in_memory.
  - intros ident actions Hfresh.
    assert (Hcount : count (InMemory d) ident = 0%nat).
    { unfold count, history. by rewrite Hfresh. }
    rewrite getsum_in_memory, getavg_in_memory, get_time_estimate_in_memory.
    rewrite Hcount. by repeat split.
Qed.

(** ** The scoped timing region *)

Lemma send_timer_end_world (ident : string) (start end_ : float) (w : World) :
  snd (send_timer_end ident start end_ w) = w.
Proof. unfold send_timer_end. by destruct timer_end. Qed.

(** A region whose body returns goes on with the statement that records the
    sample and then with the [timer_end] statement. *)
Lemma region_after_body (ident : string) (method : nat -> float)
    (body : M World unit) (w0 w1 : World) :
  body w0 = (Ok tt, w1) ->
  with_ (call ident method) body w0
  = (on_self (on_measures
                (record ident
                   (PrimFloat.sub (method (now w1)) (method (now w0))))) ;;;
     send_timer_end ident (method (now w0)) (method (now w1))) w1.
Proof.
  intros Hbody.
  unfold with_, cm_enter, cm_exit, call, bind, call_method, ret, raise.
  simpl. rewrite Hbody.
  unfold on_self, on_measures, record, bind. simpl.
  destruct (getitem ident (measures (self w1))) as [[it|e] b]; simpl;
    [|reflexivity].
  destruct (append it _ b) as [[[]|e] b']; simpl; [|reflexivity].
  by destruct (send_timer_end _ _ _ _) as [[[]|e] w2].
Qed.

(** A region whose body raises ends with the body's error, in the world the
    body left. *)
Lemma region_body_raises (ident : string) (method : nat -> float)
    (body : M World unit) (w0 w1 : World) (e : exn) :
  body w0 = (Raise e, w1) ->
  with_ (call ident method) body w0 = (Raise e, w1).
Proof.
  intros Hbody.
  unfold with_, cm_enter, cm_exit, call, bind, call_method, ret, raise.
  simpl. by rewrite Hbody.
Qed.

(** C1, as the code has it: when the body of a scoped region raises, the
    error reaches the caller unchanged and the timing bookkeeping does not
    run: nothing is recorded and the world is left as the body left it. The
    bookkeeping runs when the body returns. With [start] the reading the
    generator keeps in its frame at the yield and [end] the reading at the
    instant the body returned, [start <= end] for a monotonic time source
    when time has not run backwards, and the sample [end - start] is
    recorded exactly once under the identifier: one append to its deque in
    an in-memory store of a capacity from 0 to [2^63 - 1], one push and one
    trim in a Redis store of a limit from [-2^63 + 1] to [2^63]. Whatever
    [timer_end] is, the region leaves the world as that one statement
    leaves it. Without blinker the region ends as the statement does; with
    blinker the call of [timer_end.send] that follows a successful append
    raises [TypeError]. *)
Theorem scoped_region_exit_paths (ident : string) (method : nat -> float)
    (body : M World unit) (w0 : World) :
  let region := with_ (call ident method) body in
  match body w0 with
  | (Raise e, w1) => region w0 = (Raise e, w1)
  | (Ok _, w1) =>
      exists start end_ : float,
        cm_enter (call ident method) w0 = (Ok start, w0)
        /\ call_method method w1 = (Ok end_, w1)
        /\ (monotonic method -> (now w0 <= now w1)%nat ->
            PrimFloat.leb start end_ = true)
        /\ let sample := PrimFloat.sub end_ start in
           let recorded := on_self (on_measures (record ident sample)) w1 in
           snd (region w0) = snd recorded
           /\ (forall d : defaultdict,
                 measures (self w1) = InMemory d -> 0 <= limit d <= ssize_max ->
                 now (snd (region w0)) = now w1
                 /\ history (measures (self (snd (region w0)))) ident
                    = items (deque_append (deque_at d ident) sample)
                 /\ forall k, k ≠ ident ->
                      history (measures (self (snd (region w0)))) k
                      = history (InMemory d) k)
           /\ (forall (r : Redis) (prefix : string) (L : Z),
                 measures (self w1) = RedisBackend r prefix L ->
                 - ssize_max <= L <= ssize_max + 1 ->
                 snd (region w0)
                 = {| self := {| measures :=
                                   RedisBackend
                                     (pushed_and_trimmed r (prefix +:+ ident) L
                                        sample) prefix L |};
                      now := now w1 |})
           /\ (timer_end = None -> fst (region w0) = fst recorded)
           /\ (forall sig : Signal,
                 timer_end = Some sig ->
                 fst (region w0)
                 = match fst recorded with
                   | Ok _ => Raise TypeError
                   | Raise e => Raise e
                   end)
  end.
Proof.
  cbv zeta.
  destruct (body w0) as [[[]|e] w1] eqn:Hbody.
  2:{ by apply region_body_raises. }
  exists (method (now w0)), (method (now w1)).
  split; [reflexivity|]. split; [reflexivity|].
  split; [intros Hmono Hle; by apply Hmono|].
  pose proof (region_after_body ident method body w0 w1 Hbody) as Hregion.
  set (sample := PrimFloat.sub (method (now w1)) (method (now w0))) in *.
  assert (Hworld :
            snd (with_ (call ident method) body w0)
            = snd (on_self (on_measures (record ident sample)) w1)).
  { rewrite Hregion. unfold bind at 1.
    destruct (on_self (on_measures (record ident sample)) w1)
      as [[[]|e] w2]; [|reflexivity].
    apply send_timer_end_world. }
  split; [exact Hworld|]. split; [|split; [|split]].
  - intros d Hd HL. rewrite Hworld.
    unfold on_self, on_measures.
    rewrite Hd, record_in_memory by assumption. simpl.
    split; [reflexivity|]. split.
    + unfold history. simpl. by rewrite lookup_insert_eq.
    + intros k Hk. unfold history. simpl. by rewrite lookup_insert_ne.
  - intros r prefix L Hr HL. rewrite Hworld.
    unfold on_self, on_measures.
    by rewrite Hr, record_redis by assumption.
  - intros Hnone. rewrite Hregion. unfold bind at 1.
    destruct (on_self (on_measures (record ident sample)) w1)
      as [[[]|e] w2]; [|reflexivity].
    unfold send_timer_end. by rewrite Hnone.
  - intros sig Hsig. rewrite Hregion. unfold bind at 1.
    destruct (on_self (on_measures (record ident sample)) w1)
      as [[[]|e] w2]; [|reflexivity].
    unfold send_timer_end. by rewrite Hsig.
Qed.

(** C2, at the default: a timer built without a backend holds the function
    [InMemoryBackend], not a store, and every query and every scoped region
    on it raises [TypeError]; the same query on a timer given
    [InMemoryBackend(3)] returns its default. *)
Theorem default_timer_has_no_store (ident : string) (actions : Z)
    (method : nat -> float) (instant : nat) :
  let t := Timer_init None in
  let w := {| self := t; now := instant |} in
  measures t = InMemoryBackend_function
  /\ getsum ident t = (Raise TypeError, t)
  /\ getavg ident t = (Raise TypeError, t)
  /\ get_time_estimate ident actions t = (Raise TypeError, t)
  /\ with_ (call ident method) (ret tt) w = (Raise TypeError, w)
  /\ fst (getsum ident (Timer_init (Some (InMemoryBackend 3)))) = Ok 0%float.
Proof. cbv zeta. by repeat split. Qed.

(** ** The capacity of the in-memory store *)

(** C3, as the code has it: the capacity is not checked when the in-memory
    store is built, so building it returns a store for every [L]. For [L]
    from 0 to [2^63 - 1], so for every [L >= 1] in that range, no operation
    on the store fails, and with [L = 0] a recorded sample is dropped at
    once. For the other capacities the first access to the history of an
    identifier the store does not contain raises and stores nothing:
    [ValueError] for [L] from [-2^63] to -1, and [OverflowError] for an [L]
    that does not fit a [ssize_t]. *)
Theorem in_memory_capacity (L : Z) (m : gmap string deque) (ident : string)
    (v : float) :
  let b := InMemory {| limit := L; data := m |} in
  InMemoryBackend L = InMemory {| limit := L; data := ∅ |}
  /\ (0 <= L <= ssize_max ->
      returns (contains ident) b
      /\ returns (getitem ident) b
      /\ returns (it <- getitem ident ;; len it) b
      /\ returns (it <- getitem ident ;; iter it) b
      /\ returns (record ident v) b)
  /\ (L = 0 -> m !! ident = None ->
      history (snd (record ident v b)) ident = [])
  /\ (- ssize_max - 1 <= L < 0 -> m !! ident = None ->
      getitem ident b = (Raise ValueError, b))
  /\ (L < - ssize_max - 1 \/ ssize_max < L -> m !! ident = None ->
      getitem ident b = (Raise OverflowError, b)).
Proof.
  cbv zeta. split; [reflexivity|]. split; [|split; [|split]].
  - intros HL.
    assert (Hget : exists m',
               getitem ident (InMemory {| limit := L; data := m |})
               = (Ok (Deque ident), InMemory {| limit := L; data := m' |})
               /\ is_Some (m' !! ident)).
    { unfold getitem, defaultdict_getitem. simpl.
      destruct (m !! ident) as [q|] eqn:E.
      - exists m. by rewrite E.
      - rewrite deque_new_ok by assumption.
        eexists. split; [reflexivity|]. by rewrite lookup_insert_eq. }
    destruct Hget as (m' & Hget & [q Hq]).
    repeat split; unfold returns.
    + by eexists.
    + rewrite Hget. by eexists.
    + unfold bind. rewrite Hget. unfold len, read_deque. simpl.
      rewrite Hq. by eexists.
    + unfold bind. rewrite Hget. unfold iter, read_deque. simpl.
      rewrite Hq. by eexists.
    + rewrite record_in_memory by (simpl; lia). by eexists.
  - intros -> Hfresh.
    rewrite record_in_memory by (simpl; unfold ssize_max; lia).
    unfold history, deque_at. simpl. rewrite lookup_insert_eq, Hfresh.
    reflexivity.
  - intros HL Hfresh. unfold getitem, defaultdict_getitem. simpl.
    by rewrite Hfresh, deque_new_negative.
  - intros HL Hfresh. unfold getitem, defaultdict_getitem. simpl.
    by rewrite Hfresh, deque_new_overflow.
Qed.

End Properties.

(** ** The theorems at concrete inputs *)

Module Examples.

Import Demo.

Local Existing Instance demo_env.

Lemma clock_monotonic : monotonic clock.
Proof.
  intros i j Hle. unfold clock.
  destruct (Nat.ltb_spec i 5), (Nat.ltb_spec j 5); try reflexivity. lia.
Qed.

(** Capacity 3 and the appends 1.0, 2.0, 3.0, 4.0 under "job": both stores
    retain 2.0, 3.0, 4.0. *)
Lemma bounded_history_witness :
  1 <= 3
  /\ (exists b',
        record_all job [1; 2; 3; 4]%float (InMemoryBackend 3) = (Ok tt, b')
        /\ history b' job = [2; 3; 4]%float)
  /\ (exists b',
        record_all job [1; 2; 3; 4]%float
          (RedisBackend {| db := ∅; calls := [] |} "timer:" 3) = (Ok tt, b')
        /\ remote_history b' job = ["4.0"; "3.0"; "2.0"]%string).
Proof.
  assert (HL : 1 <= 3 <= ssize_max) by (unfold ssize_max; lia).
  destruct (bounded_history 3 job [1; 2; 3; 4]%float HL) as [Hmem Hredis].
  split; [lia|]. split.
  - destruct (Hmem {| limit := 3; data := ∅ |} eq_refl (lookup_empty _))
      as (b' & Hrun & Hhist & _).
    exists b'. split; [exact Hrun|]. rewrite Hhist. reflexivity.
  - destruct (Hredis {| db := ∅; calls := [] |} "timer:"%string
                (lookup_empty _))
      as (b' & Hrun & Hhist & _).
    exists b'. split; [exact Hrun|]. rewrite Hhist. vm_compute. reflexivity.
Defined.

(** One append to an empty Redis store. *)
Lemma redis_append_two_operations_witness :
  exists r',
    record job 1%float (RedisBackend {| db := ∅; calls := [] |} "timer:" 3)
    = (Ok tt, RedisBackend r' "timer:" 3)
    /\ calls r' = [LPUSH "timer:job" "1.0"; LTRIM "timer:job" 0 2]
    /\ redis_list "timer:job" r' = ["1.0"%string].
Proof.
  destruct (redis_append_two_operations {| db := ∅; calls := [] |}
              "timer:" 3 job 1%float)
    as (out & r' & Hrun & Hcalls & _ & Htrim & _).
  destruct Htrim as [-> Hlist]; [unfold ssize_max; lia|].
  exists r'. split; [exact Hrun|]. split; [exact Hcalls | exact Hlist].
Defined.

(** A fresh store and the identifier "never-touched". *)
Lemma nothing_recorded_defaults_witness :
  let t := {| measures := InMemoryBackend 3 |} in
  fst (getsum "never-touched" t) = Ok 0%float
  /\ fst (getavg "never-touched" t) = Ok 0%float
  /\ fst (get_time_estimate "never-touched" 10 t) = Ok None.
Proof.
  cbv zeta.
  assert (Hcount : count (InMemoryBackend 3) "never-touched" = 0%nat)
    by (vm_compute; reflexivity).
  destruct (nothing_recorded_defaults {| measures := InMemoryBackend 3 |}
              "never-touched" 10 I Hcount) as (Hsum & Havg & Hest & _).
  by repeat split.
Defined.

Lemma getavg_is_getsum_over_count_witness :
  (fst (getsum job job_timer) = Ok 9%float
   /\ fst (getavg job job_timer) = Ok 3%float)
  /\ (fst (getsum job job_timer_redis) = Ok 9%float
      /\ fst (getavg job job_timer_redis) = Ok 3%float).
Proof.
  assert (Hcount : (0 < count (measures job_timer) job)%nat)
    by (vm_compute; lia).
  assert (Hcount' : (0 < count (measures job_timer_redis) job)%nat)
    by (vm_compute; lia).
  pose proof (getavg_is_getsum_over_count job_timer job I Hcount) as Havg.
  pose proof (getavg_is_getsum_over_count job_timer_redis job I Hcount')
    as Havg'.
  split; (split; [vm_compute; reflexivity|]).
  - rewrite Havg. vm_compute. reflexivity.
  - rewrite Havg'. vm_compute. reflexivity.
Defined.


Lemma statistics_are_read_only_witness :
  let t := {| measures := InMemoryBackend 3 |} in
  run_queries [Getsum job; Getavg job; Get_time_estimate job 10] t = t
  /\ getsum job t = (Ok 0%float, t)
  /\ get_time_estimate job 10 t = (Ok None, t).
Proof.
  cbv zeta.
  destruct (statistics_are_read_only {| limit := 3; data := ∅ |})
    as [Hrun Hfresh].
  destruct (Hfresh job 10 (lookup_empty _)) as (Hsum & _ & Hest).
  split; [apply Hrun|]. split; [exact Hsum | exact Hest].
Defined.

(** A body that takes five seconds and returns: one sample of five seconds
    is recorded, with blinker and without it; without blinker the region
    returns, with blinker it raises [TypeError]. *)
Lemma scoped_region_exit_paths_witness :
  let w0 := {| self := {| measures := InMemoryBackend 3 |}; now := 0 |} in
  let out := with_ (call (env := demo_env) job clock) sleeping_body w0 in
  let out' :=
    with_ (call (env := blinker_env) job clock) sleeping_body w0 in
  fst out = Ok tt
  /\ history (measures (self (snd out))) job = [5%float]
  /\ fst out' = Raise TypeError
  /\ history (measures (self (snd out'))) job = [5%float]
  /\ PrimFloat.leb (clock 0) (clock 5) = true.
Proof.
  cbv zeta.
  set (w0 := {| self := {| measures := InMemoryBackend 3 |}; now := 0 |}).
  assert (HL : 0 <= limit {| limit := 3; data := ∅ |} <= ssize_max)
    by (simpl; unfold ssize_max; lia).
  pose proof (scoped_region_exit_paths (env := demo_env) job clock
                sleeping_body w0) as Hexit.
  pose proof (scoped_region_exit_paths (env := blinker_env) job clock
                sleeping_body w0) as Hexit'.
  cbv zeta in Hexit, Hexit'.
  change (sleeping_body w0)
    with (Ok tt, {| self := self w0; now := 5 |}) in Hexit, Hexit'.
  cbv iota beta in Hexit, Hexit'.
  destruct Hexit
    as (start & end_ & Hstart & Hend & Hmono & _ & Hmem & _ & Hfst & _).
  destruct Hexit'
    as (start' & end' & Hstart' & Hend' & _ & _ & Hmem' & _ & _ & Hsig).
  injection Hstart as <-. injection Hend as <-.
  injection Hstart' as <-. injection Hend' as <-.
  destruct (Hmem {| limit := 3; data := ∅ |} eq_refl HL) as (_ & Hhist & _).
  destruct (Hmem' {| limit := 3; data := ∅ |} eq_refl HL) as (_ & Hhist' & _).
  split; [etrans; [exact (Hfst eq_refl) | vm_compute; reflexivity]|].
  split; [etrans; [exact Hhist | vm_compute; reflexivity]|].
  split; [etrans; [exact (Hsig _ eq_refl) | vm_compute; reflexivity]|].
  split; [etrans; [exact Hhist' | vm_compute; reflexivity]|].
  apply Hmono; [apply clock_monotonic | simpl; lia].
Defined.

(** C1, the claim itself: a body that raises leaves no sample behind. *)
Lemma failing_body_records_nothing :
  let w0 := {| self := {| measures := InMemoryBackend 3 |}; now := 0 |} in
  let out := with_ (call job clock) failing_body w0 in
  out = (Raise (Exception "boom"), {| self := self w0; now := 5 |})
  /\ count (measures (self (snd out))) job = 0%nat
  /\ measures (self (snd out)) = InMemoryBackend 3.
Proof. cbv zeta. by vm_compute. Qed.

(** Capacities 3, 0, -1 and [2^63]. *)
Lemma in_memory_capacity_witness :
  returns (record job 1%float) (InMemoryBackend 3)
  /\ history (snd (record job 1%float (InMemoryBackend 0))) job = []
  /\ getitem job (InMemoryBackend (-1))
     = (Raise ValueError, InMemoryBackend (-1))
  /\ getitem job (InMemoryBackend 9223372036854775808)
     = (Raise OverflowError, InMemoryBackend 9223372036854775808).
Proof.
  destruct (in_memory_capacity 3 ∅ job 1%float) as (_ & Hok & _).
  destruct (in_memory_capacity 0 ∅ job 1%float) as (_ & _ & Hzero & _).
  destruct (in_memory_capacity (-1) ∅ job 1%float) as (_ & _ & _ & Hneg & _).
  destruct (in_memory_capacity 9223372036854775808 ∅ job 1%float)
    as (_ & _ & _ & _ & Hbig).
  split; [apply Hok; unfold ssize_max; lia|].
  split; [apply Hzero; [reflexivity | apply lookup_empty]|].
  split; [apply Hneg; [unfold ssize_max; lia | apply lookup_empty]|].
  apply Hbig; [unfold ssize_max; lia | apply lookup_empty].
Defined.

(** C3, the claim itself: capacities 0 and -1 are accepted when the store is
    built; with capacity 0 the store works, and with capacity -1 the error
    comes with the first access. *)
Lemma capacity_is_not_checked_at_construction :
  InMemoryBackend 0 = InMemory {| limit := 0; data := ∅ |}
  /\ fst (record job 1%float (InMemoryBackend 0)) = Ok tt
  /\ fst (contains job (InMemoryBackend 0)) = Ok false
  /\ InMemoryBackend (-1) = InMemory {| limit := -1; data := ∅ |}
  /\ fst (contains job (InMemoryBackend (-1))) = Ok false
  /\ fst (getitem job (InMemoryBackend (-1))) = Raise ValueError.
Proof. by vm_compute. Qed.

(** C4, the claim itself: with capacity [2^63] the first append to the
    in-memory store raises and keeps nothing, and with capacity [2^63 + 1]
    the append to the Redis store raises, its trim refused. *)
Lemma capacity_beyond_ssize_raises :
  record job 1%float (InMemoryBackend 9223372036854775808)
  = (Raise OverflowError, InMemoryBackend 9223372036854775808)
  /\ history (snd (record job 1%float (InMemoryBackend 9223372036854775808)))
       job = []
  /\ fst (record job 1%float
            (RedisBackend {| db := ∅; calls := [] |} "timer:"
               9223372036854775809))
     = Raise ResponseError.
Proof. by vm_compute. Qed.

End Examples.

(** ** Further properties of the stores *)

Section Further.

Context {env : Env}.

Lemma within_capacity_empty (L : Z) :
  within_capacity {| limit := L; data := ∅ |}.
Proof. intros k q Hq. simpl in Hq. by rewrite lookup_empty in Hq. Qed.

Lemma deque_at_within_capacity (d : defaultdict) (ident : string) :
  0 <= limit d -> within_capacity d ->
  maxlen (deque_at d ident) = limit d
  /\ Z.of_nat (length (items (deque_at d ident))) <= limit d.
Proof.
  intros HL Hwf. unfold deque_at.
  destruct (data d !! ident) as [q|] eqn:E; simpl.
  - by apply (Hwf ident).
  - split; [reflexivity | lia].
Qed.

Lemma within_capacity_insert (d : defaultdict) (ident : string) (v : float) :
  0 <= limit d -> within_capacity d ->
  within_capacity
    {| limit := limit d;
       data := <[ident := deque_append (deque_at d ident) v]> (data d) |}.
Proof.
  intros HL Hwf k q. simpl.
  destruct (deque_at_within_capacity d ident HL Hwf) as [Hmax Hlen].
  destruct (decide (k = ident)) as [->|Hne].
  - rewrite lookup_insert_eq. intros [= <-].
    rewrite deque_append_maxlen. split; [assumption|].
    rewrite <- Hmax. apply deque_append_bounded; lia.
  - rewrite lookup_insert_ne by congruence. apply Hwf.
Qed.

Lemma record_each_in_memory (ops : list (string * float)) (d : defaultdict) :
  0 <= limit d <= ssize_max -> within_capacity d ->
  exists d',
    record_each ops (InMemory d) = (Ok tt, InMemory d')
    /\ limit d' = limit d
    /\ within_capacity d'
    /\ forall k,
         history (InMemory d') k
         = lastn (Z.to_nat (limit d))
             (history (InMemory d) k ++ values_of k ops).
Proof.
  revert d. induction ops as [|[k0 v] ops IH]; intros d HL Hwf;
    cbn [record_each values_of].
  - exists d. split; [reflexivity|]. split; [reflexivity|].
    split; [assumption|].
    intros k. rewrite app_nil_r. symmetry. apply lastn_all.
    rewrite history_deque_at.
    destruct (deque_at_within_capacity d k) as [_ Hlen]; [lia | assumption|].
    lia.
  - unfold bind. rewrite record_in_memory by assumption.
    set (d1 := {| limit := limit d;
                  data := <[k0 := deque_append (deque_at d k0) v]> (data d) |}).
    destruct (IH d1 HL (within_capacity_insert d k0 v (proj1 HL) Hwf))
      as (d' & Hrun & Hlim & Hwf' & Hhist).
    exists d'. split; [assumption|]. split; [assumption|].
    split; [assumption|].
    intros k. rewrite Hhist. simpl limit.
    destruct (decide (k0 = k)) as [->|Hne].
    + assert (Hk : history (InMemory d1) k
                   = lastn (Z.to_nat (limit d)) (history (InMemory d) k ++ [v])).
      { unfold history at 1. subst d1. cbn [data].
        rewrite lookup_insert_eq. cbn [from_option].
        destruct (deque_at_within_capacity d k (proj1 HL) Hwf) as [Hmax Hlen].
        rewrite deque_append_items by lia.
        by rewrite Hmax, history_deque_at. }
      rewrite Hk, lastn_app_lastn. by rewrite <- app_assoc.
    + assert (Hk : history (InMemory d1) k = history (InMemory d) k).
      { unfold history. subst d1. simpl. by rewrite lookup_insert_ne. }
      by rewrite Hk.
Qed.

(** X1: the capacity invariant of the in-memory store. Take a store in
    which every deque was made by the default factory and is within the
    capacity (the empty store that [InMemoryBackend(L)] builds is one), with
    a capacity from 0 to [2^63 - 1]. Then reading [measures[ident]],
    appending to it, and any sequence of appends succeed and leave such a
    store: no history is ever longer than the capacity. *)
Theorem capacity_invariant (d : defaultdict) (ident : string) (v : float)
    (ops : list (string * float)) :
  0 <= limit d <= ssize_max ->
  within_capacity d ->
  (exists d',
      getitem ident (InMemory d) = (Ok (Deque ident), InMemory d')
      /\ limit d' = limit d /\ within_capacity d')
  /\ (exists d',
        record ident v (InMemory d) = (Ok tt, InMemory d')
        /\ limit d' = limit d /\ within_capacity d'
        /\ Z.of_nat (length (history (InMemory d') ident)) <= limit d)
  /\ (exists d',
        record_each ops (InMemory d) = (Ok tt, InMemory d')
        /\ limit d' = limit d /\ within_capacity d'
        /\ forall k,
             Z.of_nat (length (history (InMemory d') k)) <= limit d).
Proof.
  intros HL Hwf. split; [|split].
  - unfold getitem, defaultdict_getitem.
    destruct (data d !! ident) as [q|] eqn:E.
    + exists d. by destruct d.
    + rewrite deque_new_ok by assumption.
      eexists. split; [reflexivity|]. split; [reflexivity|].
      intros k q. simpl. destruct (decide (k = ident)) as [->|Hne].
      * rewrite lookup_insert_eq. intros [= <-]. simpl. split; [done | lia].
      * rewrite lookup_insert_ne by congruence. apply Hwf.
  - rewrite record_in_memory by assumption.
    eexists. split; [reflexivity|]. split; [reflexivity|].
    pose proof (within_capacity_insert d ident v (proj1 HL) Hwf) as Hwf'.
    split; [exact Hwf'|].
    rewrite history_deque_at.
    by destruct (deque_at_within_capacity
                   {| limit := limit d;
                      data := <[ident := deque_append (deque_at d ident) v]>
                                (data d) |} ident (proj1 HL) Hwf')
      as [_ Hlen].
  - destruct (record_each_in_memory ops d HL Hwf)
      as (d' & Hrun & Hlim & Hwf' & _).
    exists d'. split; [assumption|]. split; [assumption|].
    split; [assumption|].
    intros k. rewrite history_deque_at.
    destruct (deque_at_within_capacity d' k) as [_ Hlen];
      [lia | assumption | lia].
Qed.

(** X2: histories of an in-memory store are independent. With a capacity
    from 0 to [2^63 - 1], after any sequence of appends to any identifiers,
    interleaved in any way, every append has succeeded and the history of
    each identifier holds the most recent [L] of what it held before
    followed by the values appended under that identifier, in order;
    appends under other identifiers do not show in it. *)
Theorem interleaved_appends_in_memory (ops : list (string * float))
    (d : defaultdict) :
  0 <= limit d <= ssize_max ->
  within_capacity d ->
  exists b',
    record_each ops (InMemory d) = (Ok tt, b')
    /\ forall k,
         history b' k
         = lastn (Z.to_nat (limit d))
             (history (InMemory d) k ++ values_of k ops).
Proof.
  intros HL Hwf.
  destruct (record_each_in_memory ops d HL Hwf) as (d' & Hrun & _ & _ & Hhist).
  by exists (InMemory d').
Qed.

Lemma prefixed_key_ne (prefix k k' : string) :
  k ≠ k' -> prefix +:+ k ≠ prefix +:+ k'.
Proof. intros Hne Heq. apply Hne. by apply (String.app_inj prefix). Qed.

Lemma redis_list_pushed_other (r : Redis) (key k : string) (L : Z) (v : float) :
  k ≠ key -> redis_list k (pushed_and_trimmed r key L v) = redis_list k r.
Proof.
  intros Hne. unfold redis_list. by rewrite pushed_and_trimmed_other.
Qed.

Lemma record_each_redis (ops : list (string * float)) (r : Redis)
    (prefix : string) (L : Z) :
  1 <= L <= ssize_max + 1 ->
  exists r',
    record_each ops (RedisBackend r prefix L) = (Ok tt, RedisBackend r' prefix L)
    /\ calls r' = calls r ++ append_calls prefix L ops
    /\ (forall k,
          (length (redis_list (prefix +:+ k) r) <= Z.to_nat L)%nat ->
          redis_list (prefix +:+ k) r'
          = take (Z.to_nat L)
              (reverse (str <$> values_of k ops) ++ redis_list (prefix +:+ k) r))
    /\ (forall key,
          (forall op, op ∈ ops -> key ≠ prefix +:+ fst op) ->
          db r' !! key = db r !! key).
Proof.
  intros HL. revert r.
  induction ops as [|[k0 v] ops IH]; intros r; cbn [record_each values_of].
  - exists r. split; [reflexivity|]. split; [by rewrite app_nil_r|].
    split; [|reflexivity].
    intros k Hlen. by rewrite take_ge.
  - unfold bind. rewrite record_redis by lia.
    set (r1 := pushed_and_trimmed r (prefix +:+ k0) L v).
    destruct (IH r1) as (r' & Hrun & Hcalls & Hlists & Hother).
    exists r'. split; [assumption|]. split; [|split].
    + rewrite Hcalls. subst r1. simpl. by rewrite <- app_assoc.
    + intros k Hlen. destruct (decide (k0 = k)) as [->|Hne].
      * assert (Hk : redis_list (prefix +:+ k) r1
                     = take (Z.to_nat L) (str v :: redis_list (prefix +:+ k) r))
          by (apply pushed_and_trimmed_list; lia).
        rewrite Hlists by (rewrite Hk, length_take; lia).
        rewrite Hk, take_app_take by lia.
        by rewrite fmap_cons, reverse_cons, <- app_assoc.
      * assert (Hk : redis_list (prefix +:+ k) r1 = redis_list (prefix +:+ k) r).
        { apply redis_list_pushed_other. apply prefixed_key_ne. congruence. }
        rewrite Hlists by (by rewrite Hk). by rewrite Hk.
    + intros key Hkey. rewrite Hother.
      * apply pushed_and_trimmed_other. apply (Hkey (k0, v)). by left.
      * intros op Hop. apply Hkey. by right.
Qed.

(** X3: histories of a Redis store are independent, and appends never read.
    With [L] from 1 to [2^63], any interleaved sequence of appends succeeds
    and makes exactly one [lpush] and one [ltrim] per append on the
    connection, in order, and nothing else; the list of each identifier
    that was within the limit holds the [L] newest of its appended values,
    newest first, followed by what it held before; keys of no appended
    identifier are untouched. *)
Theorem interleaved_appends_redis (ops : list (string * float)) (r : Redis)
    (prefix : string) (L : Z) :
  1 <= L <= ssize_max + 1 ->
  exists r',
    record_each ops (RedisBackend r prefix L) = (Ok tt, RedisBackend r' prefix L)
    /\ calls r' = calls r ++ append_calls prefix L ops
    /\ (forall k,
          (length (remote_history (RedisBackend r prefix L) k) <= Z.to_nat L)%nat ->
          remote_history (RedisBackend r' prefix L) k
          = take (Z.to_nat L)
              (reverse (str <$> values_of k ops)
               ++ remote_history (RedisBackend r prefix L) k))
    /\ (forall key,
          (forall op, op ∈ ops -> key ≠ prefix +:+ fst op) ->
          db r' !! key = db r !! key).
Proof. intros HL. by apply record_each_redis. Qed.

(** The index range [0..L-1] for a limit [L <= 0] drops the last [-L]
    entries. *)
Lemma list_range_nonpositive (l : list string) (L : Z) :
  L <= 0 ->
  list_range l 0 (L - 1) = take (Z.to_nat (Z.of_nat (length l) + L)) l.
Proof.
  intros HL. unfold list_range. cbv zeta.
  split_cmp; simpl; try lia; rewrite ?drop_0.
  all: first
    [ by (f_equal; lia)
    | by (replace (Z.to_nat (Z.of_nat (length l) + L)) with 0%nat by lia)
    | destruct l; simpl in *; [by rewrite take_nil | lia] ].
Qed.

Lemma record_all_redis_unbounded (vs : list float) (r : Redis)
    (prefix : string) (ident : string) :
  exists r',
    record_all ident vs (RedisBackend r prefix 0)
    = (Ok tt, RedisBackend r' prefix 0)
    /\ redis_list (prefix +:+ ident) r'
       = reverse (str <$> vs) ++ redis_list (prefix +:+ ident) r.
Proof.
  revert r. induction vs as [|v vs IH]; intros r; cbn [record_all].
  - by exists r.
  - unfold bind. rewrite record_redis by (unfold ssize_max; lia).
    set (r1 := pushed_and_trimmed r (prefix +:+ ident) 0 v).
    assert (Hr1 : redis_list (prefix +:+ ident) r1
                  = str v :: redis_list (prefix +:+ ident) r).
    { unfold redis_list at 1. subst r1. unfold pushed_and_trimmed. simpl.
      rewrite lookup_db_set, decide_True by reflexivity.
      change (0 - 1) with (-1). apply list_range_all. }
    destruct (IH r1) as (r' & Hrun & Hlist).
    exists r'. split; [assumption|].
    by rewrite Hlist, Hr1, fmap_cons, reverse_cons, <- app_assoc.
Qed.

(** X4: a Redis store with a limit of zero or less, down to [-2^63 + 1],
    the least limit whose trim the server accepts. The trim
    [ltrim(key, 0, L - 1)] then counts from the end of the list: after an
    append the list holds the pushed entry and the old ones without the last
    [-L] entries. So with limit 0 nothing is ever trimmed and a run of
    appends keeps every value, unlike the in-memory store of capacity 0; and
    with a limit below zero an append to a list of fewer than [-L] entries
    leaves no list at all. *)
Theorem redis_limit_nonpositive (r : Redis) (prefix : string) (L : Z)
    (ident : string) (v : float) :
  - ssize_max <= L <= 0 ->
  let key := prefix +:+ ident in
  let old := redis_list key r in
  remote_history (snd (record ident v (RedisBackend r prefix L))) ident
  = take (Z.to_nat (Z.of_nat (length old) + 1 + L)) (str v :: old)
  /\ (L = 0 ->
      forall vs,
        remote_history (snd (record_all ident vs (RedisBackend r prefix L))) ident
        = reverse (str <$> vs) ++ old)
  /\ (Z.of_nat (length old) < - L ->
      fst (contains ident (snd (record ident v (RedisBackend r prefix L))))
      = Ok false).
Proof.
  intros HL key old.
  assert (Hlist : redis_list key (pushed_and_trimmed r key L v)
                  = take (Z.to_nat (Z.of_nat (length old) + 1 + L))
                      (str v :: old)).
  { unfold redis_list at 1. unfold pushed_and_trimmed. simpl.
    rewrite lookup_db_set, decide_True by reflexivity.
    rewrite list_range_nonpositive by lia.
    fold old. cbn [length].
    replace (Z.of_nat (S (length old)) + L)
      with (Z.of_nat (length old) + 1 + L) by lia.
    reflexivity. }
  split; [|split].
  - rewrite record_redis by lia. exact Hlist.
  - intros -> vs.
    destruct (record_all_redis_unbounded vs r prefix ident)
      as (r' & Hrun & Hr'). by rewrite Hrun.
  - intros Hshort. rewrite record_redis by lia.
    unfold contains, on_redis, redis_exists, pushed_and_trimmed. simpl.
    rewrite list_range_nonpositive by lia.
    fold key. fold old. cbn [length].
    replace (Z.to_nat (Z.of_nat (S (length old)) + L)) with 0%nat by lia.
    unfold db_set. simpl. by rewrite lookup_delete_eq.
Qed.

(** ** Further properties of the statistics *)

Lemma parse_all_malformed (l : list string) (s : string) :
  s ∈ l -> float_of_str s = None -> parse_all l = Raise ValueError.
Proof.
  intros Hin Hbad. induction l as [|x l IH]; [by apply elem_of_nil in Hin|].
  simpl. destruct (float_of_str x) as [y|] eqn:Ex; [|reflexivity].
  apply elem_of_cons in Hin as [->|Hin]; [congruence|].
  by rewrite (IH Hin).
Qed.

Lemma parse_all_str (l : list float) :
  (forall v, v ∈ l -> float_of_str (str v) = Some v) ->
  parse_all (str <$> l) = Ok l.
Proof.
  induction l as [|x l IH]; intros Hrt; [reflexivity|].
  rewrite fmap_cons. cbn [parse_all]. rewrite (Hrt x) by (by left).
  rewrite IH; [reflexivity|]. intros v Hv. apply Hrt. by right.
Qed.

(** X5: a malformed entry surfaces. When the remote list of an identifier
    holds an entry that [float] rejects, [getsum], [getavg] and
    [get_time_estimate] all raise [ValueError]; none of them falls back to
    its default. *)
Theorem malformed_entry_raises (r : Redis) (prefix : string) (L : Z)
    (ident : string) (actions : Z) (s : string) :
  let t := {| measures := RedisBackend r prefix L |} in
  s ∈ remote_history (measures t) ident ->
  float_of_str s = None ->
  fst (getsum ident t) = Raise ValueError
  /\ fst (getavg ident t) = Raise ValueError
  /\ fst (get_time_estimate ident actions t) = Raise ValueError.
Proof.
  cbv zeta. cbn [measures]. intros Hin Hbad.
  assert (Hparse : parse_all (remote_history (RedisBackend r prefix L) ident)
                   = Raise ValueError) by (by eapply parse_all_malformed).
  assert (Hcount : (Z.of_nat (count (RedisBackend r prefix L) ident) =? 0)
                   = false).
  { apply Z.eqb_neq. unfold count.
    destruct (remote_history (RedisBackend r prefix L) ident);
      [by apply elem_of_nil in Hin | simpl; lia]. }
  pose proof (getsum_redis r prefix L ident) as Hsum.
  pose proof (getavg_redis r prefix L ident) as Havg.
  pose proof (get_time_estimate_redis r prefix L ident actions) as Hest.
  cbv zeta in Hsum, Havg, Hest.
  rewrite Hest, Havg, Hsum, Hcount, Hparse. by repeat split.
Qed.

Lemma nothing_recorded_redis_known (r : Redis) (prefix : string) (L : Z)
    (ident : string) (l : list string) :
  let key := prefix +:+ ident in
  db r !! key = Some l -> l ≠ [] ->
  nothing_recorded ident {| measures := RedisBackend r prefix L |}
  = (Ok false,
     {| measures := RedisBackend (logged r [EXISTS key; LLEN key]) prefix L |}).
Proof.
  cbv zeta. intros Hl Hne. rewrite nothing_recorded_redis. cbv zeta.
  unfold redis_list. rewrite Hl. cbn [default].
  destruct l as [|x l]; [done|]. reflexivity.
Qed.

Lemma getsum_redis_known (r : Redis) (prefix : string) (L : Z)
    (ident : string) (l : list string) (xs : list float) :
  let key := prefix +:+ ident in
  db r !! key = Some l -> l ≠ [] -> parse_all l = Ok xs ->
  getsum ident {| measures := RedisBackend r prefix L |}
  = (Ok (py_sum xs),
     {| measures :=
          RedisBackend (logged r [EXISTS key; LLEN key; LRANGE key 0 (-1)])
            prefix L |}).
Proof.
  cbv zeta. intros Hl Hne Hparse. unfold getsum, bind.
  rewrite (nothing_recorded_redis_known r prefix L ident l Hl Hne).
  unfold on_measures, getitem, iter, bind, on_redis, redis_lrange, lift_result,
    logged, redis_list, ret. simpl in *.
  rewrite Hl. simpl. rewrite list_range_all, Hparse.
  by rewrite <- app_assoc.
Qed.

Lemma getavg_redis_known (r : Redis) (prefix : string) (L : Z)
    (ident : string) (l : list string) (xs : list float) :
  let key := prefix +:+ ident in
  db r !! key = Some l -> l ≠ [] -> parse_all l = Ok xs ->
  getavg ident {| measures := RedisBackend r prefix L |}
  = (truediv (py_sum xs) (Z.of_nat (length l)),
     {| measures :=
          RedisBackend
            (logged r [EXISTS key; LLEN key; LRANGE key 0 (-1); LLEN key])
            prefix L |}).
Proof.
  cbv zeta. intros Hl Hne Hparse. unfold getavg, bind.
  rewrite (nothing_recorded_redis_known r prefix L ident l Hl Hne).
  unfold on_measures, getitem, iter, len, bind, on_redis, redis_lrange,
    redis_llen, lift_result, logged, redis_list, ret. simpl in *.
  rewrite Hl. simpl. rewrite list_range_all, Hparse. simpl.
  by rewrite <- !app_assoc.
Qed.

(** X6: the remote calls of the statistics queries. On a Redis store the
    queries leave the remote data as it is. For an identifier without a
    list each of them makes the single call [exists]. For an identifier
    whose list is not empty and parses, [getsum] makes three calls
    ([exists], [llen], [lrange 0 -1]), [getavg] a fourth ([llen] again), and
    [get_time_estimate] six: its own guard and then all of [getavg]. *)
Theorem redis_query_calls (r : Redis) (prefix : string) (L : Z)
    (ident : string) (actions : Z) :
  let key := prefix +:+ ident in
  let t := {| measures := RedisBackend r prefix L |} in
  (db r !! key = None ->
   only_called t (snd (getsum ident t)) [EXISTS key]
   /\ only_called t (snd (getavg ident t)) [EXISTS key]
   /\ only_called t (snd (get_time_estimate ident actions t)) [EXISTS key])
  /\ (forall xs,
        (0 < count (measures t) ident)%nat ->
        parse_all (remote_history (measures t) ident) = Ok xs ->
        only_called t (snd (getsum ident t))
          [EXISTS key; LLEN key; LRANGE key 0 (-1)]
        /\ only_called t (snd (getavg ident t))
             [EXISTS key; LLEN key; LRANGE key 0 (-1); LLEN key]
        /\ only_called t (snd (get_time_estimate ident actions t))
             [EXISTS key; LLEN key;
              EXISTS key; LLEN key; LRANGE key 0 (-1); LLEN key]).
Proof.
  cbv zeta. split.
  - intros Hnone.
    unfold only_called, getsum, getavg, get_time_estimate, nothing_recorded,
      bind, on_measures, contains, on_redis, redis_exists. simpl.
    rewrite Hnone. simpl. by repeat split.
  - intros xs Hcount Hparse. simpl in Hcount, Hparse.
    unfold redis_list in Hcount, Hparse.
    destruct (db r !! (prefix +:+ ident)) as [l|] eqn:Hl;
      [|simpl in Hcount; lia].
    simpl in Hcount, Hparse.
    assert (Hne : l ≠ []) by (intros ->; simpl in Hcount; lia).
    split; [|split].
    + rewrite (getsum_redis_known r prefix L ident l xs Hl Hne Hparse).
      by unfold only_called.
    + rewrite (getavg_redis_known r prefix L ident l xs Hl Hne Hparse).
      by unfold only_called.
    + unfold get_time_estimate, bind.
      rewrite (nothing_recorded_redis_known r prefix L ident l Hl Hne).
      rewrite (getavg_redis_known
                 (logged r [EXISTS (prefix +:+ ident); LLEN (prefix +:+ ident)])
                 prefix L ident l xs Hl Hne Hparse).
      unfold only_called, lift_result, ret, logged. simpl.
      destruct (truediv (py_sum xs) (Z.of_nat (length l))) as [avg|e]; simpl;
        [destruct (mul_int avg actions); simpl|];
        repeat split; by rewrite <- ?app_assoc.
Qed.

Lemma lastn_nonempty {A} (n : nat) (l : list A) :
  (1 <= n)%nat -> l ≠ [] -> (0 < length (lastn n l))%nat.
Proof.
  intros Hn Hl. rewrite lastn_length.
  destruct l; [done | cbn [length]; lia].
Qed.

Lemma elem_of_lastn {A} (n : nat) (l : list A) (x : A) :
  x ∈ lastn n l -> x ∈ l.
Proof. unfold lastn. intros Hin. by eapply subseteq_drop. Qed.

Lemma history_after_record_all (vs : list float) (d : defaultdict)
    (ident : string) :
  1 <= limit d <= ssize_max -> data d !! ident = None ->
  exists d',
    record_all ident vs (InMemory d) = (Ok tt, InMemory d')
    /\ history (InMemory d') ident = lastn (Z.to_nat (limit d)) vs.
Proof.
  intros HL Hfresh.
  destruct (record_all_in_memory vs d ident) as (d' & Hrun & _ & _ & Hat);
    [lia|].
  exists d'. split; [assumption|].
  rewrite history_deque_at, Hat. unfold deque_at. rewrite Hfresh. simpl.
  by destruct (deque_append_all vs {| maxlen := limit d; items := [] |})
    as [-> _]; simpl; [lia | lia |].
Qed.

Lemma remote_history_after_record_all (vs : list float) (r : Redis)
    (prefix : string) (L : Z) (ident : string) :
  1 <= L <= ssize_max + 1 -> db r !! (prefix +:+ ident) = None ->
  exists r',
    record_all ident vs (RedisBackend r prefix L)
    = (Ok tt, RedisBackend r' prefix L)
    /\ redis_list (prefix +:+ ident) r'
       = str <$> reverse (lastn (Z.to_nat L) vs).
Proof.
  intros HL Hfresh.
  assert (Hempty : redis_list (prefix +:+ ident) r = [])
    by (unfold redis_list; by rewrite Hfresh).
  destruct (record_all_redis vs r prefix L ident HL) as (r' & Hrun & Hlist);
    [rewrite Hempty; simpl; lia|].
  exists r'. split; [assumption|].
  rewrite Hlist, Hempty, app_nil_r, take_reverse, fmap_reverse.
  unfold lastn. by rewrite length_fmap, fmap_drop.
Qed.

(** X7: appends, then statistics. With a capacity [L] from 1 to
    [2^63 - 1], after a non-empty run of appends to an identifier the store
    has not seen, [getsum] is the sum of the [L] most recent values, added
    oldest first by the in-memory store and newest first by the Redis
    store, and [getavg] is that sum divided, as floats, by their number; on
    the Redis store this needs [float(str(v))] to give back each appended
    [v]. *)
Theorem statistics_after_appends (L : Z) (ident : string) (vs : list float) :
  1 <= L <= ssize_max ->
  vs ≠ [] ->
  let kept := lastn (Z.to_nat L) vs in
  let average (total : float) : result float :=
    match float_of_int (Z.of_nat (length kept)) with
    | Ok n =>
        if PrimFloat.eqb n 0%float then Raise ZeroDivisionError
        else Ok (PrimFloat.div total n)
    | Raise e => Raise e
    end in
  (forall d : defaultdict,
      limit d = L -> data d !! ident = None ->
      let t := {| measures := snd (record_all ident vs (InMemory d)) |} in
      fst (getsum ident t) = Ok (py_sum kept)
      /\ fst (getavg ident t) = average (py_sum kept))
  /\ (forall (r : Redis) (prefix : string),
      db r !! (prefix +:+ ident) = None ->
      (forall v, v ∈ vs -> float_of_str (str v) = Some v) ->
      let t :=
        {| measures := snd (record_all ident vs (RedisBackend r prefix L)) |} in
      fst (getsum ident t) = Ok (py_sum (reverse kept))
      /\ fst (getavg ident t) = average (py_sum (reverse kept))).
Proof.
  intros HL Hvs kept average.
  assert (Hkept : (0 < length kept)%nat)
    by (apply lastn_nonempty; [lia | assumption]).
  split.
  - intros d Hlim Hfresh t. subst t.
    destruct (history_after_record_all vs d ident) as (d' & Hrun & Hhist);
      [lia | assumption |].
    rewrite Hrun. simpl snd. rewrite Hlim in Hhist. fold kept in Hhist.
    rewrite getsum_in_memory, getavg_in_memory. unfold count.
    rewrite Hhist. simpl fst.
    by destruct (Z.eqb_spec (Z.of_nat (length kept)) 0); [lia|].
  - intros r prefix Hfresh Hrt t. subst t.
    destruct (remote_history_after_record_all vs r prefix L ident)
      as (r' & Hrun & Hlist); [lia | assumption |].
    fold kept in Hlist. rewrite Hrun. simpl snd.
    pose proof (getsum_redis r' prefix L ident) as Hsum.
    pose proof (getavg_redis r' prefix L ident) as Havg.
    cbv zeta in Hsum, Havg. unfold count, remote_history in Hsum, Havg.
    rewrite Hlist in Hsum, Havg.
    rewrite length_fmap, length_reverse in Hsum, Havg.
    rewrite parse_all_str in Hsum, Havg.
    2,3: intros v Hv; apply Hrt; rewrite elem_of_reverse in Hv;
         apply (elem_of_lastn (Z.to_nat L)); exact Hv.
    destruct (Z.eqb_spec (Z.of_nat (length kept)) 0); [lia|].
    by rewrite Hsum, Havg.
Qed.

(** X8: after one append to a store of a capacity [L] from 1 to
    [2^63 - 1] the identifier has a sample, so [get_time_estimate] no longer
    answers [None]: it returns an estimate or raises. *)
Theorem estimate_available_after_append (L : Z) (ident : string) (v : float)
    (actions : Z) :
  1 <= L <= ssize_max ->
  (forall d : defaultdict,
      limit d = L -> within_capacity d ->
      let b' := snd (record ident v (InMemory d)) in
      (0 < count b' ident)%nat
      /\ fst (get_time_estimate ident actions {| measures := b' |}) ≠ Ok None)
  /\ (forall (r : Redis) (prefix : string),
      let b' := snd (record ident v (RedisBackend r prefix L)) in
      (0 < count b' ident)%nat
      /\ fst (get_time_estimate ident actions {| measures := b' |}) ≠ Ok None).
Proof.
  intros HL.
  assert (Hsome : forall b',
             is_store b' -> (0 < count b' ident)%nat ->
             fst (get_time_estimate ident actions {| measures := b' |})
             ≠ Ok None).
  { intros b' Hstore Hcount.
    rewrite (get_time_estimate_spec {| measures := b' |} ident actions
               Hstore Hcount).
    destruct (fst (getavg ident {| measures := b' |})) as [avg|e]; [|done].
    by destruct (mul_int avg actions). }
  split.
  - intros d Hlim Hwf b'. subst b'.
    rewrite record_in_memory by lia. simpl snd.
    assert (Hcount : (0 < count (InMemory
              {| limit := limit d;
                 data := <[ident := deque_append (deque_at d ident) v]>
                           (data d) |}) ident)%nat).
    { unfold count, history. cbn [data].
      rewrite lookup_insert_eq. cbn [from_option].
      destruct (deque_at_within_capacity d ident) as [Hmax Hlen];
        [lia | assumption |].
      rewrite deque_append_items by lia. rewrite lastn_length.
      rewrite length_app. cbn [length]. lia. }
    split; [exact Hcount|]. by apply Hsome.
  - intros r prefix b'. subst b'. rewrite record_redis by lia. simpl snd.
    assert (Hcount : (0 < count (RedisBackend
              (pushed_and_trimmed r (prefix +:+ ident) L v) prefix L)
              ident)%nat).
    { unfold count, remote_history.
      rewrite pushed_and_trimmed_list by lia.
      rewrite length_take. simpl. lia. }
    split; [exact Hcount|]. by apply Hsome.
Qed.

(** X9: an in-memory store of capacity 0 keeps nothing. After any appends,
    every history is empty, so the sum stays [0.0] and there is never an
    estimate. *)
Theorem capacity_zero_keeps_nothing (ops : list (string * float))
    (ident : string) (actions : Z) :
  let run := record_each ops (InMemoryBackend 0) in
  let t := {| measures := snd run |} in
  fst run = Ok tt
  /\ history (snd run) ident = []
  /\ fst (getsum ident t) = Ok 0%float
  /\ fst (getavg ident t) = Ok 0%float
  /\ fst (get_time_estimate ident actions t) = Ok None.
Proof.
  cbv zeta. unfold InMemoryBackend.
  destruct (record_each_in_memory ops {| limit := 0; data := ∅ |})
    as (d' & Hrun & _ & _ & Hhist);
    [simpl; unfold ssize_max; lia | apply within_capacity_empty |].
  rewrite Hrun. simpl fst. simpl snd.
  assert (Hempty : history (InMemory d') ident = []).
  { rewrite Hhist. unfold lastn. simpl. by rewrite Nat.sub_0_r, drop_all. }
  rewrite getsum_in_memory, getavg_in_memory, get_time_estimate_in_memory.
  unfold count. rewrite Hempty. by repeat split.
Qed.

(** X10: the defaults of [RedisBackend]. Built with the connection alone,
    the backend keeps the history of an identifier under the identifier
    itself as the remote key, and keeps the 100 most recent samples. *)
Theorem redis_backend_defaults (r : Redis) (ident : string) (vs : list float) :
  db r !! ident = None ->
  exists r',
    record_all ident vs (RedisBackend_init r None None)
    = (Ok tt, RedisBackend r' "" 100)
    /\ default [] (db r' !! ident) = str <$> reverse (lastn 100 vs)
    /\ (length (default [] (db r' !! ident)) <= 100)%nat.
Proof.
  intros Hfresh. unfold RedisBackend_init. simpl.
  destruct (remote_history_after_record_all vs r "" 100 ident)
    as (r' & Hrun & Hlist); [unfold ssize_max; lia | exact Hfresh |].
  exists r'. split; [assumption|].
  assert (Hkey : default [] (db r' !! ident) = str <$> reverse (lastn 100 vs))
    by exact Hlist.
  split; [exact Hkey|].
  rewrite Hkey, length_fmap, length_reverse, lastn_length. lia.
Qed.

(** X11: reading [measures[ident]] is not free on the in-memory store. For
    an identifier the store does not contain (capacity from 0 to
    [2^63 - 1]) it stores an empty history: the identifier is contained
    afterwards, other identifiers are as before, the statistics still
    answer their defaults, and reading again changes nothing more. On the
    Redis store the same read makes no remote call and leaves the backend
    as it was. *)
Theorem getitem_creates_entry (L : Z) (m : gmap string deque) (ident : string)
    (actions : Z) :
  0 <= L <= ssize_max ->
  m !! ident = None ->
  let b := InMemory {| limit := L; data := m |} in
  let b' := snd (getitem ident b) in
  fst (contains ident b) = Ok false
  /\ fst (getitem ident b) = Ok (Deque ident)
  /\ fst (contains ident b') = Ok true
  /\ history b' ident = []
  /\ (forall k, k ≠ ident ->
        contains k b' = (fst (contains k b), b')
        /\ history b' k = history b k)
  /\ getitem ident b' = (Ok (Deque ident), b')
  /\ getsum ident {| measures := b' |} = (Ok 0%float, {| measures := b' |})
  /\ get_time_estimate ident actions {| measures := b' |}
     = (Ok None, {| measures := b' |})
  /\ (forall (r : Redis) (prefix : string),
        getitem ident (RedisBackend r prefix L)
        = (Ok (RedisBackendItem (prefix +:+ ident) L), RedisBackend r prefix L)).
Proof.
  intros HL Hfresh. cbv zeta.
  assert (Hget : getitem ident (InMemory {| limit := L; data := m |})
                 = (Ok (Deque ident),
                    InMemory {| limit := L;
                                data := <[ident := {| maxlen := L; items := [] |}]>
                                          m |})).
  { unfold getitem, defaultdict_getitem. simpl.
    by rewrite Hfresh, deque_new_ok. }
  rewrite Hget. simpl fst. simpl snd.
  split.
  { unfold contains, defaultdict_contains. simpl. rewrite Hfresh.
    by rewrite bool_decide_eq_false_2 by (by intros [? ?]). }
  split; [reflexivity|]. split.
  { unfold contains, defaultdict_contains. simpl. rewrite lookup_insert_eq.
    by rewrite bool_decide_eq_true_2 by eauto. }
  split.
  { unfold history. simpl. by rewrite lookup_insert_eq. }
  split.
  { intros k Hk. unfold contains, defaultdict_contains, history. simpl.
    by rewrite lookup_insert_ne by congruence. }
  split.
  { unfold getitem, defaultdict_getitem. simpl. by rewrite lookup_insert_eq. }
  rewrite getsum_in_memory, get_time_estimate_in_memory.
  assert (Hcount : count (InMemory
            {| limit := L;
               data := <[ident := {| maxlen := L; items := [] |}]> m |}) ident
          = 0%nat).
  { unfold count, history. simpl. by rewrite lookup_insert_eq. }
  rewrite Hcount. by repeat split.
Qed.

Lemma iter_in_memory (d : defaultdict) (ident : string) :
  0 <= limit d <= ssize_max ->
  fst ((it <- getitem ident ;; iter it) (InMemory d))
  = Ok (history (InMemory d) ident).
Proof.
  intros HL. unfold bind, getitem, defaultdict_getitem, history.
  destruct (data d !! ident) as [q|] eqn:E; simpl.
  - unfold read_deque. by rewrite E.
  - rewrite deque_new_ok by assumption. simpl.
    unfold read_deque. simpl. by rewrite lookup_insert_eq.
Qed.

Lemma iter_redis (r : Redis) (prefix : string) (L : Z) (ident : string) :
  fst ((it <- getitem ident ;; iter it) (RedisBackend r prefix L))
  = parse_all (redis_list (prefix +:+ ident) r).
Proof.
  unfold bind, getitem, iter, bind, on_redis, redis_lrange, lift_result. simpl.
  rewrite list_range_all. by destruct (parse_all _).
Qed.

(** X13: appends, then iteration. With a capacity [L] from 1 to
    [2^63 - 1], after a run of appends to an identifier the store has not
    seen, iterating its item yields the [L] most recent values: oldest
    first from the in-memory store, and newest first from the Redis store,
    provided [float(str(v))] gives back each appended [v]. *)
Theorem iteration_after_appends (L : Z) (ident : string) (vs : list float) :
  1 <= L <= ssize_max ->
  (forall d : defaultdict,
      limit d = L -> data d !! ident = None ->
      fst ((record_all ident vs ;;; it <- getitem ident ;; iter it)
             (InMemory d))
      = Ok (lastn (Z.to_nat L) vs))
  /\ (forall (r : Redis) (prefix : string),
      db r !! (prefix +:+ ident) = None ->
      (forall v, v ∈ vs -> float_of_str (str v) = Some v) ->
      fst ((record_all ident vs ;;; it <- getitem ident ;; iter it)
             (RedisBackend r prefix L))
      = Ok (reverse (lastn (Z.to_nat L) vs))).
Proof.
  intros HL. split.
  - intros d Hlim Hfresh.
    destruct (record_all_in_memory vs d ident) as (d' & Hrun & Hlim' & _);
      [lia|].
    destruct (history_after_record_all vs d ident) as (d'' & Hrun' & Hhist);
      [lia | assumption |].
    rewrite Hrun in Hrun'. injection Hrun' as <-.
    unfold bind at 1. rewrite Hrun.
    rewrite iter_in_memory by lia. by rewrite Hhist, Hlim.
  - intros r prefix Hfresh Hrt.
    destruct (remote_history_after_record_all vs r prefix L ident)
      as (r' & Hrun & Hlist); [lia | assumption |].
    unfold bind at 1. rewrite Hrun. rewrite iter_redis, Hlist.
    apply parse_all_str. intros v Hv. apply Hrt.
    rewrite elem_of_reverse in Hv.
    apply (elem_of_lastn (Z.to_nat L)). exact Hv.
Qed.

(** ** Regions in a loop *)

Lemma region_sleep_in_memory (ident : string) (method : nat -> float)
    (dur : nat) (w : World) (d : defaultdict) :
  timer_end = None ->
  measures (self w) = InMemory d ->
  0 <= limit d <= ssize_max ->
  with_ (call ident method) (sleep dur) w
  = (Ok tt,
     {| self :=
          {| measures :=
               snd (record ident
                      (PrimFloat.sub (method (now w + dur)%nat) (method (now w)))
                      (InMemory d)) |};
        now := (now w + dur)%nat |}).
Proof.
  intros Hte Hd HL. rewrite record_in_memory by assumption.
  unfold with_, cm_enter, cm_exit, call, bind, call_method, sleep, ret,
    send_timer_end, on_self, on_measures. simpl.
  rewrite Hte, Hd.
  pose proof (record_in_memory d ident
                (PrimFloat.sub (method (now w + dur)%nat) (method (now w))) HL)
    as Hrec.
  unfold record, bind in Hrec.
  destruct (getitem ident (InMemory d)) as [[it|e] b]; [|discriminate].
  simpl.
  destruct (append it _ b) as [[[]|e] b']; [|discriminate].
  unfold ret. simpl. by injection Hrec as ->.
Qed.

Lemma timed_loop_records (ident : string) (method : nat -> float)
    (durations : list nat) (w : World) (d : defaultdict) :
  timer_end = None ->
  measures (self w) = InMemory d ->
  0 <= limit d <= ssize_max ->
  timed_loop ident method durations w
  = (fst (record_each
            ((fun v => (ident, v)) <$> loop_samples method (now w) durations)
            (InMemory d)),
     {| self :=
          {| measures :=
               snd (record_each
                      ((fun v => (ident, v))
                         <$> loop_samples method (now w) durations)
                      (InMemory d)) |};
        now := (now w + sum_list durations)%nat |}).
Proof.
  intros Hte. revert w d.
  induction durations as [|dur durations IH]; intros w d Hd HL;
    cbn [timed_loop loop_samples sum_list sum_list_with fmap list_fmap
         record_each].
  - unfold ret. simpl. destruct w as [[b] n]. simpl in *. subst b.
    by rewrite Nat.add_0_r.
  - unfold bind at 1.
    rewrite (region_sleep_in_memory ident method dur w d Hte Hd HL).
    unfold bind at 2. unfold bind at 1.
    rewrite record_in_memory by assumption. cbn [snd].
    rewrite (IH _ {| limit := limit d;
                     data := <[ident := deque_append (deque_at d ident)
                                 (PrimFloat.sub (method (now w + dur)%nat)
                                    (method (now w)))]> (data d) |});
      [|reflexivity | assumption].
    cbn [now self]. by rewrite Nat.add_assoc.
Qed.

Lemma values_of_same (ident : string) (vs : list float) :
  values_of ident ((fun v => (ident, v)) <$> vs) = vs.
Proof.
  induction vs as [|v vs IH]; [reflexivity|].
  rewrite fmap_cons. cbn [values_of].
  rewrite decide_True by reflexivity. by rewrite IH.
Qed.

Lemma values_of_other (ident k : string) (vs : list float) :
  k ≠ ident -> values_of k ((fun v => (ident, v)) <$> vs) = [].
Proof.
  intros Hne. induction vs as [|v vs IH]; [reflexivity|].
  rewrite fmap_cons. cbn [values_of].
  by rewrite decide_False by congruence.
Qed.

(** X12: regions in a loop. Without blinker, on an in-memory store within
    its capacity, which is from 0 to [2^63 - 1], a loop of scoped regions
    for one identifier whose bodies only let time pass returns normally,
    takes the total duration, and leaves under the identifier the most
    recent [L] of the earlier samples followed by one sample
    [method(end) - method(start)] per region, in order; the histories of
    other identifiers are as before. *)
Theorem timed_loop_in_memory (ident : string) (method : nat -> float)
    (durations : list nat) (w : World) (d : defaultdict) :
  timer_end = None ->
  measures (self w) = InMemory d ->
  0 <= limit d <= ssize_max ->
  within_capacity d ->
  let out := timed_loop ident method durations w in
  fst out = Ok tt
  /\ now (snd out) = (now w + sum_list durations)%nat
  /\ history (measures (self (snd out))) ident
     = lastn (Z.to_nat (limit d))
         (history (InMemory d) ident
          ++ loop_samples method (now w) durations)
  /\ (forall k, k ≠ ident ->
        history (measures (self (snd out))) k = history (InMemory d) k).
Proof.
  intros Hte Hd HL Hwf. cbv zeta.
  rewrite (timed_loop_records ident method durations w d Hte Hd HL).
  destruct (record_each_in_memory
              ((fun v => (ident, v)) <$> loop_samples method (now w) durations)
              d HL Hwf) as (d' & Hrun & _ & _ & Hhist).
  rewrite Hrun. cbn [fst snd self measures now].
  split; [reflexivity|]. split; [reflexivity|]. split.
  - by rewrite Hhist, values_of_same.
  - intros k Hk. rewrite Hhist, values_of_other, app_nil_r by assumption.
    apply lastn_all. rewrite history_deque_at.
    destruct (deque_at_within_capacity d k (proj1 HL) Hwf) as [_ Hlen]. lia.
Qed.

(** ** Regions with blinker installed *)

(** X14: with blinker installed no scoped region completes. Whatever the
    body and the store, the region ends with an error: the error of the
    body, or the error of the append, or, after an append that succeeded,
    the [TypeError] of [timer_end.send(self, ident, start, end)], whose
    four arguments [Signal.send] does not take. The sample is recorded all
    the same: on an in-memory store of a capacity from 0 to [2^63 - 1] a
    region whose body returns raises [TypeError] and leaves the sample in
    the history, and a loop of regions stops in its first one. *)
Theorem region_with_blinker_raises (sig : Signal) (ident : string)
    (method : nat -> float) (body : M World unit) (w0 : World) :
  timer_end = Some sig ->
  (exists e, fst (with_ (call ident method) body w0) = Raise e)
  /\ (forall (w1 : World) (d : defaultdict),
        body w0 = (Ok tt, w1) ->
        measures (self w1) = InMemory d -> 0 <= limit d <= ssize_max ->
        let sample := PrimFloat.sub (method (now w1)) (method (now w0)) in
        with_ (call ident method) body w0
        = (Raise TypeError,
           {| self := {| measures := snd (record ident sample (InMemory d)) |};
              now := now w1 |})
        /\ history (snd (record ident sample (InMemory d))) ident
           = items (deque_append (deque_at d ident) sample))
  /\ (forall (d : defaultdict) (dur : nat) (durations : list nat),
        measures (self w0) = InMemory d -> 0 <= limit d <= ssize_max ->
        timed_loop ident method (dur :: durations) w0
        = with_ (call ident method) (sleep dur) w0).
Proof.
  intros Hsig.
  assert (Hrun : forall (b : M World unit) (w1 : World) (d : defaultdict),
             b w0 = (Ok tt, w1) ->
             measures (self w1) = InMemory d -> 0 <= limit d <= ssize_max ->
             with_ (call ident method) b w0
             = (Raise TypeError,
                {| self :=
                     {| measures :=
                          snd (record ident
                                 (PrimFloat.sub (method (now w1))
                                    (method (now w0))) (InMemory d)) |};
                   now := now w1 |})).
  { intros b w1 d Hb Hd HL.
    rewrite (region_after_body ident method b w0 w1 Hb).
    unfold bind, on_self, on_measures.
    rewrite Hd, record_in_memory by assumption. cbn [snd].
    unfold send_timer_end. by rewrite Hsig. }
  split; [|split].
  - destruct (body w0) as [[[]|e] w1] eqn:Hbody.
    + rewrite (region_after_body ident method body w0 w1 Hbody).
      unfold bind at 1.
      destruct (on_self (on_measures (record ident _)) w1) as [[[]|e] w2].
      * exists TypeError. unfold send_timer_end. by rewrite Hsig.
      * by exists e.
    + exists e. by rewrite (region_body_raises ident method body w0 w1 e).
  - intros w1 d Hbody Hd HL sample. split; [by apply Hrun|].
    rewrite record_in_memory by assumption.
    unfold history. simpl. by rewrite lookup_insert_eq.
  - intros d dur durations Hd HL. cbn [timed_loop]. unfold bind at 1.
    by rewrite (Hrun (sleep dur) {| self := self w0; now := (now w0 + dur)%nat |}
                  d eq_refl Hd HL).
Qed.

End Further.

(** ** The further properties at concrete inputs *)

Module FurtherExamples.

Import Demo.

Local Existing Instance demo_env.

Lemma capacity_invariant_witness :
  exists d',
    record job 1%float (InMemoryBackend 2) = (Ok tt, InMemory d')
    /\ within_capacity d'
    /\ Z.of_nat (length (history (InMemory d') job)) <= 2.
Proof.
  assert (HL : 0 <= limit {| limit := 2; data := ∅ |} <= ssize_max)
    by (simpl; unfold ssize_max; lia).
  destruct (capacity_invariant {| limit := 2; data := ∅ |} job 1%float
              two_jobs HL (within_capacity_empty 2))
    as (_ & (d' & Hrun & _ & Hwf & Hlen) & _).
  exists d'. split; [exact Hrun|]. split; [exact Hwf | exact Hlen].
Defined.

(** Capacity 2 and the appends of [two_jobs]: "a" keeps 4.0, 1.0 and "b"
    keeps 2.0, 5.0. *)
Lemma interleaved_appends_in_memory_witness :
  exists b',
    record_each two_jobs (InMemoryBackend 2) = (Ok tt, b')
    /\ history b' "a" = [4; 1]%float
    /\ history b' "b" = [2; 5]%float.
Proof.
  assert (HL : 0 <= limit {| limit := 2; data := ∅ |} <= ssize_max)
    by (simpl; unfold ssize_max; lia).
  destruct (interleaved_appends_in_memory two_jobs {| limit := 2; data := ∅ |}
              HL (within_capacity_empty 2)) as (b' & Hrun & Hhist).
  exists b'. split; [exact Hrun|].
  split; rewrite Hhist; vm_compute; reflexivity.
Defined.

Lemma interleaved_appends_redis_witness :
  exists r',
    record_each two_jobs (RedisBackend {| db := ∅; calls := [] |} "timer:" 2)
    = (Ok tt, RedisBackend r' "timer:" 2)
    /\ length (calls r') = 12%nat
    /\ remote_history (RedisBackend r' "timer:" 2) "a" = ["1.0"; "4.0"]%string
    /\ remote_history (RedisBackend r' "timer:" 2) "b" = ["5.0"; "2.0"]%string.
Proof.
  assert (HL : 1 <= 2 <= ssize_max + 1) by (unfold ssize_max; lia).
  destruct (interleaved_appends_redis two_jobs {| db := ∅; calls := [] |}
              "timer:" 2 HL) as (r' & Hrun & Hcalls & Hlists & _).
  exists r'. split; [exact Hrun|]. split; [by rewrite Hcalls|].
  split; (rewrite Hlists; [vm_compute; reflexivity | vm_compute; lia]).
Defined.

(** Limit 0 keeps everything; limit -1 on an empty list keeps nothing. *)
Lemma redis_limit_nonpositive_witness :
  remote_history
    (snd (record_all job [1; 2; 3]%float
            (RedisBackend {| db := ∅; calls := [] |} "timer:" 0))) job
  = ["3.0"; "2.0"; "1.0"]%string
  /\ fst (contains job
            (snd (record job 1%float
                    (RedisBackend {| db := ∅; calls := [] |} "timer:" (-1)))))
     = Ok false.
Proof.
  assert (H0 : - ssize_max <= 0 <= 0) by (unfold ssize_max; lia).
  assert (H1 : - ssize_max <= -1 <= 0) by (unfold ssize_max; lia).
  destruct (redis_limit_nonpositive {| db := ∅; calls := [] |} "timer:" 0
              job 1%float H0) as (_ & Hall & _).
  destruct (redis_limit_nonpositive {| db := ∅; calls := [] |} "timer:" (-1)
              job 1%float H1) as (_ & _ & Hnone).
  split.
  - rewrite (Hall eq_refl). vm_compute. reflexivity.
  - apply Hnone. vm_compute. reflexivity.
Defined.

Lemma malformed_entry_raises_witness :
  let t := {| measures := RedisBackend spoiled "" 3 |} in
  fst (getsum job t) = Raise ValueError
  /\ fst (getavg job t) = Raise ValueError
  /\ fst (get_time_estimate job 10 t) = Raise ValueError.
Proof.
  cbv zeta.
  assert (Hlist : remote_history (RedisBackend spoiled "" 3) job
                  = ["1.0"; "oops"]%string) by (vm_compute; reflexivity).
  assert (Hin : "oops"%string ∈ remote_history (RedisBackend spoiled "" 3) job)
    by (rewrite Hlist; set_solver).
  assert (Hbad : float_of_str "oops" = None) by reflexivity.
  exact (malformed_entry_raises spoiled "" 3 job 10 "oops" Hin Hbad).
Defined.

Lemma redis_query_calls_witness :
  let r := {| db := {[ "timer:job"%string := ["2.0"; "1.0"]%string ]};
              calls := [] |} in
  let t := {| measures := RedisBackend r "timer:" 3 |} in
  only_called t (snd (getavg job t))
    [EXISTS "timer:job"; LLEN "timer:job"; LRANGE "timer:job" 0 (-1);
     LLEN "timer:job"]
  /\ only_called t (snd (getsum "never" t)) [EXISTS "timer:never"].
Proof.
  cbv zeta.
  set (r := {| db := {[ "timer:job"%string := ["2.0"; "1.0"]%string ]};
               calls := [] |}).
  destruct (redis_query_calls r "timer:" 3 job 10) as [_ Hknown].
  destruct (redis_query_calls r "timer:" 3 "never" 10) as [Hunknown _].
  destruct (Hknown [2; 1]%float) as (_ & Havg & _);
    [vm_compute; lia | vm_compute; reflexivity |].
  destruct Hunknown as (Hsum & _); [vm_compute; reflexivity|].
  split; [exact Havg | exact Hsum].
Defined.

Lemma statistics_after_appends_witness :
  fst (getsum job job_timer) = Ok 9%float
  /\ fst (getavg job job_timer) = Ok 3%float
  /\ fst (getsum job job_timer_redis) = Ok 9%float
  /\ fst (getavg job job_timer_redis) = Ok 3%float.
Proof.
  assert (HL : 1 <= 3 <= ssize_max) by (unfold ssize_max; lia).
  assert (Hvs : [1; 2; 3; 4]%float ≠ []) by discriminate.
  destruct (statistics_after_appends 3 job [1; 2; 3; 4]%float HL Hvs)
    as [Hmem Hredis].
  destruct (Hmem {| limit := 3; data := ∅ |} eq_refl (lookup_empty _))
    as [Hsum Havg].
  destruct (Hredis {| db := ∅; calls := [] |} "timer:"%string (lookup_empty _))
    as [Hsum' Havg'].
  { intros v Hv.
    repeat (apply elem_of_cons in Hv as [->|Hv]; [reflexivity|]).
    by apply elem_of_nil in Hv. }
  split; [etrans; [exact Hsum | vm_compute; reflexivity]|].
  split; [etrans; [exact Havg | vm_compute; reflexivity]|].
  split; [etrans; [exact Hsum' | vm_compute; reflexivity]|].
  etrans; [exact Havg' | vm_compute; reflexivity].
Defined.

Lemma estimate_available_after_append_witness :
  let b' := snd (record job 1%float (InMemoryBackend 1)) in
  (0 < count b' job)%nat
  /\ fst (get_time_estimate job 5 {| measures := b' |}) ≠ Ok None.
Proof.
  cbv zeta.
  assert (HL : 1 <= 1 <= ssize_max) by (unfold ssize_max; lia).
  destruct (estimate_available_after_append 1 job 1%float 5 HL) as [Hmem _].
  exact (Hmem {| limit := 1; data := ∅ |} eq_refl (within_capacity_empty 1)).
Defined.

Lemma redis_backend_defaults_witness :
  exists r',
    record_all job [1; 2]%float
      (RedisBackend_init {| db := ∅; calls := [] |} None None)
    = (Ok tt, RedisBackend r' "" 100)
    /\ default [] (db r' !! job) = ["2.0"; "1.0"]%string.
Proof.
  destruct (redis_backend_defaults {| db := ∅; calls := [] |} job
              [1; 2]%float (lookup_empty _)) as (r' & Hrun & Hlist & _).
  exists r'. split; [exact Hrun|]. rewrite Hlist. vm_compute. reflexivity.
Defined.

Lemma getitem_creates_entry_witness :
  fst (contains job (InMemoryBackend 3)) = Ok false
  /\ fst (contains job (snd (getitem job (InMemoryBackend 3)))) = Ok true
  /\ history (snd (getitem job (InMemoryBackend 3))) job = [].
Proof.
  assert (HL : 0 <= 3 <= ssize_max) by (unfold ssize_max; lia).
  destruct (getitem_creates_entry 3 ∅ job 10 HL (lookup_empty _))
    as (Hbefore & _ & Hafter & Hhist & _).
  split; [exact Hbefore|]. split; [exact Hafter | exact Hhist].
Defined.

(** Three regions of 1, 5 and 1 seconds on the coarse clock, capacity 2. *)
Lemma timed_loop_in_memory_witness :
  let w := {| self := {| measures := InMemoryBackend 2 |}; now := 0 |} in
  let out := timed_loop job clock [1; 5; 1]%nat w in
  fst out = Ok tt
  /\ now (snd out) = 7%nat
  /\ history (measures (self (snd out))) job = [5; 0]%float.
Proof.
  cbv zeta.
  assert (HL : 0 <= limit {| limit := 2; data := ∅ |} <= ssize_max)
    by (simpl; unfold ssize_max; lia).
  destruct (timed_loop_in_memory (env := demo_env) job clock [1; 5; 1]%nat
              {| self := {| measures := InMemoryBackend 2 |}; now := 0 |}
              {| limit := 2; data := ∅ |} eq_refl eq_refl HL
              (within_capacity_empty 2)) as (Hok & Hnow & Hhist & _).
  split; [exact Hok|]. split; [exact Hnow|].
  rewrite Hhist. vm_compute. reflexivity.
Defined.

Lemma iteration_after_appends_witness :
  fst ((record_all job [1; 2; 3; 4]%float ;;; it <- getitem job ;; iter it)
         (InMemoryBackend 3)) = Ok [2; 3; 4]%float
  /\ fst ((record_all job [1; 2; 3; 4]%float ;;; it <- getitem job ;; iter it)
            (RedisBackend {| db := ∅; calls := [] |} "timer:" 3))
     = Ok [4; 3; 2]%float.
Proof.
  assert (HL : 1 <= 3 <= ssize_max) by (unfold ssize_max; lia).
  destruct (iteration_after_appends 3 job [1; 2; 3; 4]%float HL)
    as [Hmem Hredis].
  split.
  - exact (Hmem {| limit := 3; data := ∅ |} eq_refl (lookup_empty _)).
  - apply (Hredis {| db := ∅; calls := [] |} "timer:"%string (lookup_empty _)).
    intros v Hv.
    repeat (apply elem_of_cons in Hv as [->|Hv]; [reflexivity|]).
    by apply elem_of_nil in Hv.
Defined.

(** With blinker, three regions of 1, 5 and 1 seconds: the loop stops in
    the first region, whose sample is kept. *)
Lemma region_with_blinker_raises_witness :
  let w := {| self := {| measures := InMemoryBackend 2 |}; now := 0 |} in
  let out := timed_loop (env := blinker_env) job clock [1; 5; 1]%nat w in
  fst out = Raise TypeError
  /\ now (snd out) = 1%nat
  /\ history (measures (self (snd out))) job = [0%float].
Proof.
  cbv zeta.
  set (w := {| self := {| measures := InMemoryBackend 2 |}; now := 0 |}).
  assert (HL : 0 <= limit {| limit := 2; data := ∅ |} <= ssize_max)
    by (simpl; unfold ssize_max; lia).
  destruct (region_with_blinker_raises (env := blinker_env)
              (signal "Timer.timer_end") job clock (sleep 1) w eq_refl)
    as (_ & Hone & Hloop).
  rewrite (Hloop {| limit := 2; data := ∅ |} 1%nat [5; 1]%nat eq_refl HL).
  destruct (Hone {| self := self w; now := 1 |} {| limit := 2; data := ∅ |}
              eq_refl eq_refl HL) as [-> _].
  vm_compute. by repeat split.
Defined.

End FurtherExamples.
